(** * gosnpp: the SNPP paging client of [snpp.go]

    A shallow embedding of the package [snpp] (functions [read], [write] and
    [SendPage]) together with the part of its environment the functions talk
    to: the Go run time (bounds-checked indexing, panics, [defer]), a
    [net.Conn] whose behaviour is given by a script, and [bufio.Writer].

    Time is a counter of nanoseconds held in the connection state; it moves
    only inside the blocking calls [Read] and [Write]. *)

From Stdlib Require Import ZArith List String Ascii Bool Lia DecimalString.
From Stdlib.Strings Require Import Byte.
Import ListNotations.

Local Open Scope string_scope.
Local Open Scope Z_scope.

(* ================================================================= *)
(** ** Go run time *)

Module runtime.

(** The run-time error raised by an index expression out of range. *)
Inductive Error : Type :=
| index_out_of_range (i : Z) (len : Z).

(** A Go function either returns or panics. *)
Inductive outcome (A : Type) : Type :=
| Return (a : A)
| Panic (e : Error).

Arguments Return {A} a.
Arguments Panic {A} e.

Definition returned {A} (o : outcome A) : bool :=
  match o with Return _ => true | Panic _ => false end.

End runtime.
Export runtime.

(* ================================================================= *)
(** ** Error values

    Values of Go's [error] interface that can reach [SendPage].  The five
    package-level variables of [snpp.go] are created by its own [errors.New]
    calls.  Every other error value comes out of the connection ([io.EOF], a
    deadline that passed, any other failure of the transport); the packages
    that build those cannot mention the variables of package [snpp]. *)

Inductive net_error : Type :=
| io_EOF
| ErrDeadlineExceeded                (* Timeout() is true *)
| OpError (desc : string).           (* reset, broken pipe, refused, ... *)

Definition net_error_eqb (a b : net_error) : bool :=
  match a, b with
  | io_EOF, io_EOF => true
  | ErrDeadlineExceeded, ErrDeadlineExceeded => true
  | OpError s, OpError t => String.eqb s t
  | _, _ => false
  end.

Inductive error : Type :=
| ErrFailedConnection       (* "SNPP Gateway did not accept connection" *)
| ErrRejectedPhone          (* "SNPP Gateway did not accept pager number" *)
| ErrRejectedMessage        (* "SNPP Gateway did not accept message" *)
| ErrFailedSend             (* "SNPP Gateway did not send message" *)
| ErrForceQuit              (* "SNPP Gateway did not close remote connection" *)
| NetErr (e : net_error).

(** The five protocol rejections. *)
Definition protocol_errors : list error :=
  [ErrFailedConnection; ErrRejectedPhone; ErrRejectedMessage;
   ErrFailedSend; ErrForceQuit].

(* ================================================================= *)
(** ** Package [net]: a scripted connection *)

Module net.

(** What one call of [Read] hands back after blocking for [r_delay]
    nanoseconds: the bytes put in the caller's buffer and the error.  [Read]
    never returns more bytes than the buffer has room for; bytes of a result
    beyond that are cut off. *)
Record read_result : Type := mkRead {
  r_delay : Z;
  r_data : list byte;
  r_err : option net_error
}.

(** What one call of [Write] reports after blocking for [w_delay]. *)
Record write_result : Type := mkWrite {
  w_delay : Z;
  w_err : option net_error
}.

(** What the program did to the connection, oldest first. *)
Inductive event : Type :=
| EvSetDeadline (t : Z)
| EvRead (data : list byte) (err : option net_error)
| EvWrite (data : string) (err : option net_error)
| EvClose.

Record Conn : Type := mkConn {
  clock : Z;                        (* time.Now(), in nanoseconds *)
  deadline : option Z;              (* None: no deadline *)
  incoming : list read_result;      (* results of the Reads to come *)
  outgoing : list write_result;     (* results of the Writes to come *)
  trace : list event
}.

(** Once the script of reads is used up the peer has closed its side. *)
Definition closed_by_peer : read_result := mkRead 0 [] (Some io_EOF).

(** Once the script of writes is used up every write goes through. *)
Definition accepted_at_once : write_result := mkWrite 0 None.

(** A fresh connection, as the dialer returns it. *)
Definition open (now : Z) (rs : list read_result) (ws : list write_result)
  : Conn := mkConn now None rs ws [].

(** Does an operation that needs [d] nanoseconds outlive the deadline? *)
Definition expires (c : Conn) (d : Z) : bool :=
  match deadline c with
  | Some t => t <? clock c + d
  | None => false
  end.

(** The moment a blocked operation gives up. *)
Definition gives_up_at (c : Conn) : Z :=
  match deadline c with
  | Some t => Z.max (clock c) t
  | None => clock c
  end.

End net.

(** Stateful code of the package: a state monad over the connection in which
    a computation may panic. *)
Definition M (A : Type) : Type := net.Conn -> outcome A * net.Conn.

Definition ret {A} (a : A) : M A := fun c => (Return a, c).

Definition bind {A B} (m : M A) (k : A -> M B) : M B :=
  fun c =>
    match m c with
    | (Return a, c') => k a c'
    | (Panic e, c') => (Panic e, c')
    end.

Definition panic {A} (e : runtime.Error) : M A := fun c => (Panic e, c).

(** [defer cleanup] in front of [body]: the deferred call runs when the
    function leaves, by return or by panic. *)
Definition defer {A B} (cleanup : M B) (body : M A) : M A :=
  fun c =>
    let (r, c1) := body c in
    let (_, c2) := cleanup c1 in
    (r, c2).

Declare Scope go_scope.
Delimit Scope go_scope with go.
Notation "x <- m ;; k" := (bind m (fun x => k))
  (at level 61, m at next level, right associativity) : go_scope.
Notation "' pat <- m ;; k" := (bind m (fun x => match x with pat => k end))
  (at level 61, pat pattern, m at next level, right associativity) : go_scope.
Notation "m ;; k" := (bind m (fun _ => k))
  (at level 61, right associativity) : go_scope.
Local Open Scope go_scope.

Module Import builtin.

(** [buf[i]] with Go's bounds check. *)
Definition index (buf : list byte) (i : Z) : M byte :=
  if (i <? 0) || (Z.of_nat (List.length buf) <=? i)
  then panic (index_out_of_range i (Z.of_nat (List.length buf)))
  else ret (nth (Z.to_nat i) buf x00).

(** [buf[:n]] for [0 <= n <= len(buf)]. *)
Definition slice_to (buf : list byte) (n : Z) : list byte :=
  firstn (Z.to_nat n) buf.

(** [make([]byte, n)]. *)
Definition make (n : nat) : list byte := repeat x00 n.

End builtin.

(** Package [time]: durations in nanoseconds, and the clock. *)
Module time.

Definition Nanosecond : Z := 1.
Definition Second : Z := 1000000000 * Nanosecond.

(** [time.Now()]. *)
Definition Now : M Z := fun c => (Return (net.clock c), c).

End time.

Module conn.
Import net.

Definition log (e : event) (c : Conn) : Conn :=
  mkConn (clock c) (deadline c) (incoming c) (outgoing c) (trace c ++ [e]).

(** [conn.SetDeadline(t)]. *)
Definition SetDeadline (t : Z) : M unit :=
  fun c =>
    (Return tt,
     mkConn (clock c) (Some t) (incoming c) (outgoing c)
            (trace c ++ [EvSetDeadline t])).

(** [conn.Read(p)]: blocks until the next scripted result is due or the
    deadline passes.  At most [len(p)] bytes are copied into [p]; the
    result is the buffer, the count and the error. *)
Definition Read (p : list byte) : M (list byte * Z * option net_error) :=
  fun c =>
    let r := hd closed_by_peer (incoming c) in
    let d := Z.max 0 (r_delay r) in
    if expires c d then
      let t := gives_up_at c in
      (Return (p, 0, Some ErrDeadlineExceeded),
       mkConn t (deadline c)
              (match incoming c with
               | [] => []
               | r :: rest =>
                   mkRead (d - (t - clock c)) (r_data r) (r_err r) :: rest
               end)
              (outgoing c)
              (trace c ++ [EvRead [] (Some ErrDeadlineExceeded)]))
    else
      let data := firstn (List.length p) (r_data r) in
      (Return ((data ++ skipn (List.length data) p)%list,
               Z.of_nat (List.length data), r_err r),
       mkConn (clock c + d) (deadline c) (tl (incoming c)) (outgoing c)
              (trace c ++ [EvRead data (r_err r)])).

(** [conn.Write(b)]: all of [b] is sent, or the error is reported. *)
Definition Write (b : string) : M (option net_error) :=
  fun c =>
    let w := hd accepted_at_once (outgoing c) in
    let d := Z.max 0 (w_delay w) in
    if expires c d then
      let t := gives_up_at c in
      (Return (Some ErrDeadlineExceeded),
       mkConn t (deadline c) (incoming c)
              (match outgoing c with
               | [] => []
               | w :: rest => mkWrite (d - (t - clock c)) (w_err w) :: rest
               end)
              (trace c ++ [EvWrite b (Some ErrDeadlineExceeded)]))
    else
      (Return (w_err w),
       mkConn (clock c + d) (deadline c) (incoming c) (tl (outgoing c))
              (trace c ++ [EvWrite b (w_err w)])).

(** [conn.Close()]. *)
Definition Close : M (option net_error) :=
  fun c => (Return None, log EvClose c).

(** How many results the script of reads still holds.  Not a method of
    [net.Conn]: the bound on the turns of the loop of [read]. *)
Definition pending : M nat :=
  fun c => (Return (List.length (incoming c)), c).

End conn.

(* ================================================================= *)
(** ** Package [bufio]

    [bufio.Writer] belongs to Go's library; the connection has no
    [WriteString] of its own.  The writer holds up to [defaultBufSize] bytes
    and the first error of the connection.  [WriteString] hands a string
    that does not fit to the connection in pieces that fill the buffer, each
    by a [Write] of its own, and keeps the remainder; [Flush] hands over
    what the buffer holds.  After an error nothing more is written. *)

Module bufio.

Definition defaultBufSize : nat := 4096.

(** [s[:n]] and [s[n:]] for a string [s] and [n <= len(s)]. *)
Fixpoint upto (n : nat) (s : string) : string :=
  match n, s with
  | S n, String a t => String a (upto n t)
  | _, _ => EmptyString
  end.

Fixpoint from (n : nat) (s : string) : string :=
  match n, s with
  | S n, String _ t => from n t
  | _, _ => s
  end.

(** [b.buf[0:b.n]] and [b.err]. *)
Record Writer : Type := mkWriter {
  buf : string;
  err : option net_error
}.

(** [bufio.NewWriter(conn)]. *)
Definition NewWriter : Writer := mkWriter EmptyString None.

(** [b.Available()]. *)
Definition Available (b : Writer) : nat :=
  (defaultBufSize - String.length (buf b))%nat.

(** [b.Flush()], with the writer as it is left. *)
Definition Flush (b : Writer) : M (Writer * option net_error) :=
  match err b with
  | Some e => ret (b, Some e)
  | None =>
      if (String.length (buf b) =? 0)%nat then ret (b, None)
      else
        e <- conn.Write (buf b) ;;
        match e with
        | Some e => ret (mkWriter (buf b) (Some e), Some e)
        | None => ret (mkWriter EmptyString None, None)
        end
  end.

(** The loop of [WriteString]:
    [for len(s) > b.Available() && b.err == nil].  Every turn but the first
    takes [defaultBufSize] bytes off [s], so [fuel] above the length of [s]
    is never used up. *)
Fixpoint WriteString_loop (fuel : nat) (b : Writer) (s : string)
  : M (Writer * string) :=
  match fuel with
  | O => ret (b, s)
  | S fuel =>
      if (Available b <? String.length s)%nat
         && match err b with None => true | Some _ => false end
      then
        let n := Available b in          (* n = copy(b.buf[b.n:], s) *)
        let b := mkWriter (buf b ++ upto n s) (err b) in
        '(b, _) <- Flush b ;;
        WriteString_loop fuel b (from n s)
      else ret (b, s)
  end.

(** [b.WriteString(s)], with the writer as it is left; the count of bytes is
    left out. *)
Definition WriteString (b : Writer) (s : string)
  : M (Writer * option net_error) :=
  '(b, s) <- WriteString_loop (S (String.length s)) b s ;;
  match err b with
  | Some e => ret (b, Some e)
  | None => ret (mkWriter (buf b ++ s) None, None)
  end.

End bufio.

(* ================================================================= *)
(** ** Package [snpp] *)

Module snpp.
Import net.

Definition CR : ascii := ascii_of_nat 13.
Definition LF : ascii := ascii_of_nat 10.
Definition CRLF : string := String CR (String LF EmptyString).

(** [strings.HasPrefix(s, prefix)]. *)
Definition HasPrefix (s prefix : string) : bool := String.prefix prefix s.

(** [bigBuffer.String()]. *)
Definition String_ (bigBuffer : list byte) : string :=
  string_of_list_byte bigBuffer.

Definition lift (e : option net_error) : option error :=
  option_map NetErr e.

(** The [for] loop of [read], lines 25-41.  Every turn that goes round
    again has taken one result off the script, so [fuel] above the number
    of pending results is never used up ([read_loop_fuel] below). *)
Fixpoint read_loop (fuel : nat) (bigBuffer : list byte)
  : M (string * option error) :=
  match fuel with
  | O => ret (String_ bigBuffer, None)
  | S fuel =>
      let readBuf := make 256 in
      '(readBuf, n, readErr) <- conn.Read readBuf ;;
      match readErr with
      | Some e =>
          if negb (net_error_eqb e io_EOF)
          then ret (EmptyString, Some (NetErr e))
          else (* break *) ret (String_ bigBuffer, None)
      | None =>
          let bigBuffer := (bigBuffer ++ slice_to readBuf n)%list in
          (* Messages end with a Carriage Return and a New Line *)
          a <- index readBuf (n - 2) ;;
          if (Byte.to_N a =? 13)%N then
            b <- index readBuf (n - 1) ;;
            if (Byte.to_N b =? 10)%N
            then (* break *) ret (String_ bigBuffer, None)
            else read_loop fuel bigBuffer
          else read_loop fuel bigBuffer
      end
  end.

(** [func read(conn net.Conn) (string, error)]. *)
Definition read : M (string * option error) :=
  (* These gateways can be slow - so set a 30 second timeout *)
  now <- time.Now ;;
  conn.SetDeadline (now + 30 * time.Second) ;;
  turns <- conn.pending ;;
  read_loop (S turns) [].

(** [func write(conn net.Conn, msg string) error]. *)
Definition write (msg : string) : M (option error) :=
  (* These gateways can be slow - so set a 30 second timeout *)
  now <- time.Now ;;
  conn.SetDeadline (now + 30 * time.Second) ;;
  let writer := bufio.NewWriter in
  '(writer, writeErr) <- bufio.WriteString writer msg ;;
  match writeErr with
  | Some e => ret (Some (NetErr e))
  | None =>
      '(_, flushErr) <- bufio.Flush writer ;;
      ret (lift flushErr)
  end.

(** [fmt.Sprintf("%s:%d", address, port)] for a [uint64] port. *)
Definition host_port (address : string) (port : N) : string :=
  address ++ ":" ++ NilZero.string_of_uint (N.to_uint port).

(** [net.DialTimeout]: network, address and timeout to a connection or an
    error. *)
Definition Dialer : Type := string -> string -> Z -> Conn + net_error.

(** [if err != nil { return err }] around the rest of the function. *)
Notation "'check' m 'in' k" :=
  (bind m (fun r => match r with Some e => ret (Some e) | None => k end))
    (at level 61, m at next level, right associativity) : go_scope.

(** [msg, readErr = read(conn)], the test of [readErr] and the test of the
    prefix: the three statements that follow every command. *)
Notation "'expect' p 'orelse' e 'in' k" :=
  (bind read (fun r =>
     match r with
     | (_, Some readErr) => ret (Some readErr)
     | (msg, None) =>
         if negb (HasPrefix msg p) then ret (Some e) else k
     end))
    (at level 61, p at next level, e at next level,
     right associativity) : go_scope.

(** [func SendPage(address string, port uint64, number string,
    message string) error], with the state the connection is left in. *)
Definition SendPage (dial : Dialer) (address : string) (port : N)
           (number message : string)
  : outcome (option error) * option Conn :=
  match dial "tcp" (host_port address port) (30 * time.Second) with
  | inr connErr => (Return (Some (NetErr connErr)), None)
  | inl conn =>
      let (r, conn') :=
        defer conn.Close
          (expect "220" orelse ErrFailedConnection in
           check write ("PAGE " ++ number ++ " " ++ CRLF) in
           expect "250" orelse ErrRejectedPhone in
           check write ("MESS " ++ message ++ " " ++ CRLF) in
           expect "250" orelse ErrRejectedMessage in
           check write ("SEND " ++ CRLF) in
           expect "250" orelse ErrFailedSend in
           check write ("QUIT " ++ CRLF) in
           expect "221" orelse ErrForceQuit in
           ret None) conn in
      (r, Some conn')
  end.

End snpp.

(* ================================================================= *)
(** ** Observations and the handshake as data *)

Import net snpp.

(** The byte strings handed to the connection, oldest first. *)
Definition written (tr : list event) : list string :=
  flat_map (fun e => match e with EvWrite b _ => [b] | _ => [] end) tr.

Definition is_close (e : event) : bool :=
  match e with EvClose => true | _ => false end.

(** How often the connection was closed. *)
Definition closes (tr : list event) : nat :=
  List.length (filter is_close tr).

Definition is_read (e : event) : Prop :=
  match e with EvRead _ _ => True | _ => False end.

Definition is_write (e : event) : Prop :=
  match e with EvWrite _ _ => True | _ => False end.

(** The bytes one [Read] into the 256-byte buffer of [read] delivers. *)
Definition delivered (r : read_result) : list byte :=
  firstn 256 (r_data r).

(** The chunk ends with carriage return, line feed. *)
Definition terminated (chunk : list byte) : bool :=
  match rev chunk with
  | b :: a :: _ => (Byte.to_N a =? 13)%N && (Byte.to_N b =? 10)%N
  | _ => false
  end.

(** Time the results [rs] take, one after the other. *)
Definition duration (rs : list read_result) : Z :=
  fold_right (fun r t => Z.max 0 (r_delay r) + t) 0 rs.

(** Occurrences of the pair CR LF in a string: the lines it ends. *)
Fixpoint count_crlf (s : string) : nat :=
  match s with
  | EmptyString => O
  | String a t =>
      match t with
      | String b _ =>
          if Ascii.eqb a CR && Ascii.eqb b LF then S (count_crlf t)
          else count_crlf t
      | EmptyString => O
      end
  end.

(** One round of [SendPage]: the command written (none before the greeting),
    the prefix the answer must have and the error returned when it has not. *)
Record round : Type := mkRound {
  command : option string;
  expected : string;
  failure : error
}.

(** Lines 79-129 of [SendPage] as a table. *)
Definition handshake (number message : string) : list round :=
  [ mkRound None "220" ErrFailedConnection;
    mkRound (Some ("PAGE " ++ number ++ " " ++ CRLF)) "250" ErrRejectedPhone;
    mkRound (Some ("MESS " ++ message ++ " " ++ CRLF)) "250"
            ErrRejectedMessage;
    mkRound (Some ("SEND " ++ CRLF)) "250" ErrFailedSend;
    mkRound (Some ("QUIT " ++ CRLF)) "221" ErrForceQuit ].

Definition commands (rs : list round) : list string :=
  flat_map (fun r => match command r with Some s => [s] | None => [] end) rs.

(** The command of a round, if any, then the answer; the error is that of
    [write] or of [read]. *)
Definition exchange (r : round) : M (string * option error) :=
  match command r with
  | None => read
  | Some cmd =>
      writeErr <- write cmd ;;
      match writeErr with
      | Some e => ret (EmptyString, Some e)
      | None => read
      end
  end.

(** The rounds in order, up to the first that fails. *)
Fixpoint run (rs : list round) : M (option error) :=
  match rs with
  | [] => ret None
  | r :: rs' =>
      '(msg, err) <- exchange r ;;
      match err with
      | Some e => ret (Some e)
      | None =>
          if negb (HasPrefix msg (expected r)) then ret (Some (failure r))
          else run rs'
      end
  end.

(** The gateway answers each round of [rs] with the expected prefix, which
    takes the connection from the first state to the second. *)
Inductive accepted : list round -> Conn -> Conn -> Prop :=
| accepted_nil c : accepted [] c c
| accepted_cons r rs c msg c1 c2 :
    exchange r c = (Return (msg, None), c1) ->
    HasPrefix msg (expected r) = true ->
    accepted rs c1 c2 ->
    accepted (r :: rs) c c2.

(** The state [SendPage] leaves the connection in once [defer] has run. *)
Definition closed (c : Conn) : Conn := conn.log EvClose c.

(** A round that has a command has one of at least one byte. *)
Definition speaks (r : round) : Prop :=
  match command r with
  | Some EmptyString => False
  | _ => True
  end.

(** The four commands of a page, in the order they are written. *)
Definition wire_commands (number message : string) : list string :=
  ["PAGE " ++ number ++ " " ++ CRLF;
   "MESS " ++ message ++ " " ++ CRLF;
   "SEND " ++ CRLF;
   "QUIT " ++ CRLF].

(** Strings one after the other. *)
Definition joined (l : list string) : string :=
  fold_right append EmptyString l.

(** The bytes handed to the connection, in the order they were handed. *)
Definition wire (tr : list event) : string := joined (written tr).

(** The string goes into the buffer of a [bufio.Writer] in one piece. *)
Definition fits (cmd : string) : Prop :=
  (String.length cmd <= bufio.defaultBufSize)%nat.

(** The event is a [Write] that failed with [ne], or a [Read] that failed
    with [ne] other than the end of input. *)
Definition transport_failure (ev : event) (ne : net_error) : Prop :=
  match ev with
  | EvWrite _ (Some e) => e = ne
  | EvRead _ (Some e) => e = ne /\ e <> io_EOF
  | _ => False
  end.

Definition quiet (ev : event) : Prop :=
  forall ne, ~ transport_failure ev ne.

(** No event of [evs] is a transport failure ([None]), or the last is the
    only one, with error [ne] ([Some ne]). *)
Definition orderly (evs : list event) (res : option net_error) : Prop :=
  match res with
  | None => Forall quiet evs
  | Some ne =>
      exists before ev,
        evs = (before ++ [ev])%list /\ Forall quiet before /\
        transport_failure ev ne
  end.

(** The error of the connection in what [read] or a round returns, and in
    what [SendPage] returns. *)
Definition read_failure (o : outcome (string * option error))
  : option net_error :=
  match o with
  | Return (_, Some (NetErr ne)) => Some ne
  | _ => None
  end.

Definition run_failure (o : outcome (option error)) : option net_error :=
  match o with
  | Return (Some (NetErr ne)) => Some ne
  | _ => None
  end.

(** The error of a round is one of the package, not one of a connection. *)
Definition rejects (r : round) : Prop :=
  match failure r with
  | NetErr _ => False
  | _ => True
  end.

(** The state after a [Read] that came back in time, and after one that ran
    into the deadline. *)
Definition after_read (c : Conn) : Conn :=
  let r := hd closed_by_peer (incoming c) in
  mkConn (clock c + Z.max 0 (r_delay r)) (deadline c) (tl (incoming c))
         (outgoing c) (trace c ++ [EvRead (delivered r) (r_err r)]).

Definition after_late_read (c : Conn) : Conn :=
  let t := gives_up_at c in
  mkConn t (deadline c)
         (match incoming c with
          | [] => []
          | r :: rest =>
              mkRead (Z.max 0 (r_delay r) - (t - clock c))
                     (r_data r) (r_err r) :: rest
          end)
         (outgoing c)
         (trace c ++ [EvRead [] (Some ErrDeadlineExceeded)]).

(** One turn of the loop of [read], by the result the script holds next. *)
Definition read_turn (fuel : nat) (bigBuffer : list byte) (c : Conn)
  : outcome (string * option error) * Conn :=
  let r := hd closed_by_peer (incoming c) in
  if expires c (Z.max 0 (r_delay r)) then
    (Return (EmptyString, Some (NetErr ErrDeadlineExceeded)),
     after_late_read c)
  else
    match r_err r with
    | Some e =>
        if net_error_eqb e io_EOF
        then (Return (String_ bigBuffer, None), after_read c)
        else (Return (EmptyString, Some (NetErr e)), after_read c)
    | None =>
        if (List.length (delivered r) <? 2)%nat then
          (Panic (index_out_of_range
                    (Z.of_nat (List.length (delivered r)) - 2) 256),
           after_read c)
        else if terminated (delivered r) then
          (Return (String_ (bigBuffer ++ delivered r), None), after_read c)
        else read_loop fuel (bigBuffer ++ delivered r) (after_read c)
    end.

(** The ways the loop of [read] is left, with the [Read] that ends it:
    an error other than end of input (a passed deadline is one), end of
    input, the index expression on a chunk of fewer than two bytes, and the
    terminator. *)
Inductive stops_by : outcome (string * option error) -> event -> Prop :=
| by_error ne data :
    ne <> io_EOF ->
    stops_by (Return (EmptyString, Some (NetErr ne))) (EvRead data (Some ne))
| by_end_of_input s data :
    stops_by (Return (s, None)) (EvRead data (Some io_EOF))
| by_index data :
    (List.length data < 2)%nat ->
    stops_by (Panic (index_out_of_range (Z.of_nat (List.length data) - 2) 256))
             (EvRead data None)
| by_terminator s data :
    terminated data = true ->
    stops_by (Return (s, None)) (EvRead data None).

(** A chunk of at least two bytes without terminator at its end, read
    without error. *)
Definition plain (r : read_result) : Prop :=
  r_err r = None /\ (2 <= List.length (delivered r))%nat /\
  terminated (delivered r) = false.

(** C5 as the specification has it: at a clean end of input [read] returns,
    without error, all the bytes delivered so far, those that came with the
    end of input included. *)
Definition end_of_input_keeps_all_bytes : Prop :=
  forall c pre last rest,
    incoming c = (pre ++ last :: rest)%list ->
    Forall (fun r => r_err r = None /\ terminated (delivered r) = false)
           pre ->
    r_err last = Some io_EOF ->
    duration (pre ++ [last]) <= 30 * time.Second ->
    fst (read c) =
    Return (String_ (List.concat (map delivered pre) ++ delivered last),
            None).

(* ================================================================= *)
(** ** Sample gateways *)

Module sample.

Definition bytes (s : string) : list byte := list_byte_of_string s.

(** One answer of the gateway, delivered at once in one chunk. *)
Definition answer (s : string) : read_result :=
  mkRead 0 (bytes (s ++ CRLF)) None.

(** One answer that takes [d] nanoseconds to arrive. *)
Definition slow_answer (d : Z) (s : string) : read_result :=
  mkRead d (bytes (s ++ CRLF)) None.

(** A dialer that reaches the given connection. *)
Definition to (c : Conn) : Dialer := fun _ _ _ => inl c.

Definition friendly : Conn :=
  open 0 [answer "220 SNPP Gateway Ready"; answer "250 Pager ID Accepted";
          answer "250 Message OK"; answer "250 Message Sent";
          answer "221 Goodbye"] [].

Definition refuses_pager : Conn :=
  open 0 [answer "220 SNPP Gateway Ready"; answer "550 Unknown pager"] [].

(** The connection is reset while the answer to PAGE is awaited. *)
Definition resets : Conn :=
  open 0 [answer "220 SNPP Gateway Ready";
          mkRead 0 [] (Some (OpError "connection reset by peer"))] [].

(** One byte arrives alone. *)
Definition one_byte : Conn := open 0 [mkRead 0 (bytes "2") None] [].

(** The last bytes arrive together with the end of input. *)
Definition bytes_with_EOF : Conn :=
  open 0 [mkRead 0 (bytes "220 ok") (Some io_EOF)] [].

(** CR and LF arrive in different chunks. *)
Definition split_terminator : Conn :=
  open 0 [mkRead 0 (bytes ("220 ok" ++ String CR EmptyString)) None;
          mkRead 0 (bytes (String LF "more")) None] [].

(** The greeting takes 31 seconds. *)
Definition silent : Conn :=
  open 0 [slow_answer (31 * time.Second) "220 SNPP Gateway Ready"] [].


End sample.

(** Further gateways. *)
Module scene.

(** The greeting comes in two chunks; the gateway has more to say. *)
Definition chatty : Conn :=
  open 0 [mkRead 0 (sample.bytes "220 SNPP ") None;
          sample.answer "Gateway Ready";
          sample.answer "214 more to come"] [].

(** The connection is reset in the middle of the greeting. *)
Definition reset_mid_answer : Conn :=
  open 0 [mkRead 0 (sample.bytes "220 SNPP ") None;
          mkRead 0 [] (Some (OpError "connection reset by peer"))] [].

(** The gateway greets and hangs up. *)
Definition hangs_up : Conn :=
  open 0 [sample.answer "220 SNPP Gateway Ready"] [].

(** Every answer and every write takes the full 30 seconds. *)
Definition slowest : Conn :=
  open 0 [sample.slow_answer (30 * time.Second) "220 SNPP Gateway Ready";
          sample.slow_answer (30 * time.Second) "250 Pager ID Accepted";
          sample.slow_answer (30 * time.Second) "250 Message OK";
          sample.slow_answer (30 * time.Second) "250 Message Sent";
          sample.slow_answer (30 * time.Second) "221 Goodbye"]
         [mkWrite (30 * time.Second) None; mkWrite (30 * time.Second) None;
          mkWrite (30 * time.Second) None; mkWrite (30 * time.Second) None].

(** CR ends one chunk, LF comes alone in the next, more follows. *)
Definition lone_LF : Conn :=
  open 0 [mkRead 0 (sample.bytes ("220 ok" ++ String CR EmptyString)) None;
          mkRead 0 (sample.bytes (String LF EmptyString)) None;
          mkRead 0 (sample.bytes "more") None] [].

(** [n] bytes. *)
Fixpoint filler (n : nat) : string :=
  match n with
  | O => EmptyString
  | S n => String "x" (filler n)
  end.

(** The first [Write] goes through, the second is refused. *)
Definition second_write_refused : Conn :=
  open 0 [] [mkWrite 0 None;
             mkWrite 0 (Some (OpError "connection reset by peer"))].

End scene.

(* ================================================================= *)
(** ** The embedding at work *)

Example host_port_decimal : host_port "example.org" 444 = "example.org:444".
Proof. reflexivity. Qed.

Example page_delivered :
  fst (SendPage (sample.to sample.friendly) "gateway" 444 "5551212" "hello")
  = Return None.
Proof. vm_compute. reflexivity. Qed.

Example page_on_the_wire :
  option_map (fun c => written (trace c))
    (snd (SendPage (sample.to sample.friendly) "gateway" 444
                   "5551212" "hello"))
  = Some ["PAGE 5551212 " ++ CRLF; "MESS hello " ++ CRLF;
          "SEND " ++ CRLF; "QUIT " ++ CRLF].
Proof. vm_compute. reflexivity. Qed.

Example pager_refused :
  fst (SendPage (sample.to sample.refuses_pager) "gateway" 444
                "5551212" "hello")
  = Return (Some ErrRejectedPhone).
Proof. vm_compute. reflexivity. Qed.

Example gateway_silent :
  fst (SendPage (sample.to sample.silent) "gateway" 444 "5551212" "hello")
  = Return (Some (NetErr ErrDeadlineExceeded)).
Proof. vm_compute. reflexivity. Qed.

Example dial_refused :
  SendPage (fun _ _ _ => inr (OpError "connection refused"))
           "gateway" 444 "5551212" "hello"
  = (Return (Some (NetErr (OpError "connection refused"))), None).
Proof. reflexivity. Qed.

Example greeting_in_two_chunks :
  fst (read (open 0 [mkRead 0 (sample.bytes "220 SNPP ") None;
                     sample.answer "Gateway Ready"] []))
  = Return ("220 SNPP Gateway Ready" ++ CRLF, None).
Proof. vm_compute. reflexivity. Qed.

Example no_byte_at_all :
  fst (read (open 0 [mkRead 0 [] None] []))
  = Panic (index_out_of_range (-2) 256).
Proof. vm_compute. reflexivity. Qed.

(** A message of 4100 bytes goes out as 4096 bytes and 4 bytes; the error of
    the second [Write] is the one [write] returns. *)
Example long_message_in_pieces :
  let (r, c) := write (scene.filler 4100) scene.second_write_refused in
  r = Return (Some (NetErr (OpError "connection reset by peer"))) /\
  map String.length (written (trace c)) = [4096; 4]%nat /\
  wire (trace c) = scene.filler 4100.
Proof. vm_compute. repeat split. Qed.

(* ================================================================= *)
(** ** The connection primitives *)

Lemma Read_in_time p c :
  expires c (Z.max 0 (r_delay (hd closed_by_peer (incoming c)))) = false ->
  conn.Read p c =
  let r := hd closed_by_peer (incoming c) in
  let data := firstn (List.length p) (r_data r) in
  (Return ((data ++ skipn (List.length data) p)%list,
           Z.of_nat (List.length data), r_err r),
   mkConn (clock c + Z.max 0 (r_delay r)) (deadline c) (tl (incoming c))
          (outgoing c) (trace c ++ [EvRead data (r_err r)])).
Proof.
  intros H. unfold conn.Read. cbv zeta. rewrite H. reflexivity.
Qed.

Section Buffer.

Variables (p data : list byte).
Hypothesis fits : (List.length data <= List.length p)%nat.

Let filled : list byte := (data ++ skipn (List.length data) p)%list.

Lemma filled_length : List.length filled = List.length p.
Proof.
  unfold filled. rewrite length_app, length_skipn. lia.
Qed.

Lemma filled_slice : slice_to filled (Z.of_nat (List.length data)) = data.
Proof.
  unfold slice_to, filled. rewrite Nat2Z.id.
  rewrite firstn_app, Nat.sub_diag, firstn_all. cbn.
  apply app_nil_r.
Qed.

Lemma filled_nth i :
  (i < List.length data)%nat -> nth i filled x00 = nth i data x00.
Proof.
  intros H. unfold filled. now rewrite app_nth1.
Qed.

Lemma filled_index i cn :
  0 <= i < Z.of_nat (List.length data) ->
  index filled i cn = (Return (nth (Z.to_nat i) data x00), cn).
Proof.
  intros H. unfold index. rewrite filled_length.
  replace ((i <? 0) || (Z.of_nat (List.length p) <=? i)) with false.
  - unfold ret. rewrite filled_nth by lia. reflexivity.
  - symmetry. apply orb_false_iff. split.
    + apply Z.ltb_ge. lia.
    + apply Z.leb_gt. lia.
Qed.

Lemma filled_index_below i cn :
  i < 0 ->
  index filled i cn =
  (Panic (index_out_of_range i (Z.of_nat (List.length p))), cn).
Proof.
  intros H. unfold index. rewrite filled_length.
  replace (i <? 0) with true by (symmetry; apply Z.ltb_lt; lia).
  reflexivity.
Qed.

End Buffer.

Lemma terminated_nth (chunk : list byte) :
  (2 <= List.length chunk)%nat ->
  terminated chunk =
  (Byte.to_N (nth (List.length chunk - 2) chunk x00) =? 13)%N &&
  (Byte.to_N (nth (List.length chunk - 1) chunk x00) =? 10)%N.
Proof.
  intros H. unfold terminated.
  rewrite <- (rev_involutive chunk) at 2 3 4 5.
  rewrite <- (length_rev chunk) in H.
  destruct (rev chunk) as [|b [|a l]]; cbn [List.length] in H; try lia.
  cbn [rev]. rewrite <- app_assoc. cbn [app].
  rewrite !length_app. cbn [List.length].
  replace (List.length (rev l) + 2 - 2)%nat with (List.length (rev l)) by lia.
  replace (List.length (rev l) + 2 - 1)%nat
    with (S (List.length (rev l))) by lia.
  rewrite nth_middle.
  replace (rev l ++ [a; b])%list with ((rev l ++ [a]) ++ [b])%list
    by (rewrite <- app_assoc; reflexivity).
  replace (S (List.length (rev l)))
    with (List.length (rev l ++ [a])%list)
    by (rewrite length_app; cbn; lia).
  rewrite nth_middle. reflexivity.
Qed.

Lemma delivered_fits r : (List.length (delivered r) <= 256)%nat.
Proof. unfold delivered. rewrite length_firstn. lia. Qed.

Lemma make_length n : List.length (make n) = n.
Proof. apply repeat_length. Qed.

(** The loop of [read] does in one turn what [read_turn] says. *)
Lemma read_loop_turn fuel bigBuffer c :
  read_loop (S fuel) bigBuffer c = read_turn fuel bigBuffer c.
Proof.
  cbn [read_loop]. unfold read_turn, bind at 1. cbv zeta.
  destruct (expires c _) eqn:E.
  - unfold conn.Read. cbv zeta. rewrite E. unfold after_late_read.
    destruct (incoming c); reflexivity.
  - rewrite (Read_in_time _ _ E). cbv zeta.
    rewrite make_length. fold (delivered (hd closed_by_peer (incoming c))).
    unfold after_read. cbv zeta.
    set (r := hd closed_by_peer (incoming c)). cbv iota beta.
    destruct (r_err r) as [e|].
    + destruct (net_error_eqb e io_EOF); reflexivity.
    + assert (F : (List.length (delivered r) <= List.length (make 256))%nat)
        by (rewrite make_length; apply delivered_fits).
      rewrite filled_slice.
      destruct (List.length (delivered r) <? 2)%nat eqn:L.
      * apply Nat.ltb_lt in L. unfold bind.
        rewrite (filled_index_below _ _ F) by lia.
        rewrite make_length. reflexivity.
      * apply Nat.ltb_ge in L. unfold bind.
        rewrite (filled_index _ _ F) by lia.
        rewrite (terminated_nth _ L).
        replace (Z.to_nat (Z.of_nat (List.length (delivered r)) - 2))
          with (List.length (delivered r) - 2)%nat by lia.
        destruct (Byte.to_N _ =? 13)%N; cbn [andb]; [|reflexivity].
        rewrite (filled_index _ _ F) by lia.
        replace (Z.to_nat (Z.of_nat (List.length (delivered r)) - 1))
          with (List.length (delivered r) - 1)%nat by lia.
        destruct (Byte.to_N _ =? 10)%N; reflexivity.
Qed.

(** With more fuel than the script holds results the loop does not depend on
    the fuel: it is left before the fuel is used up. *)
Lemma read_loop_fuel fuel :
  forall fuel' bigBuffer c,
    (List.length (incoming c) < fuel)%nat ->
    (List.length (incoming c) < fuel')%nat ->
    read_loop fuel bigBuffer c = read_loop fuel' bigBuffer c.
Proof.
  induction fuel as [|fuel IH]; intros [|fuel'] bigBuffer c Hf Hf';
    try lia.
  rewrite !read_loop_turn. unfold read_turn. cbv zeta.
  destruct (expires c _); [reflexivity|].
  destruct (r_err (hd closed_by_peer (incoming c))) eqn:Er; [reflexivity|].
  destruct (_ <? 2)%nat; [reflexivity|].
  destruct (terminated _); [reflexivity|].
  destruct (incoming c) as [|r rest] eqn:Hi; [discriminate|].
  cbn [List.length] in Hf, Hf'.
  apply IH; cbn [after_read incoming]; rewrite Hi; cbn [tl]; lia.
Qed.

(* ================================================================= *)
(** ** What [read] and [write] do to the connection *)

Lemma written_app a b : written (a ++ b) = (written a ++ written b)%list.
Proof. apply flat_map_app. Qed.

Lemma closes_app a b : closes (a ++ b) = (closes a + closes b)%nat.
Proof. unfold closes. now rewrite filter_app, length_app. Qed.

Lemma reads_only evs :
  Forall is_read evs -> written evs = [] /\ closes evs = O.
Proof.
  induction 1 as [|e evs He _ [IHw IHc]]; [now split|].
  destruct e; try contradiction. split; [exact IHw | exact IHc].
Qed.

(** The loop of [read] only reads, leaves the deadline alone and does not
    run past it. *)
Lemma read_loop_effect fuel :
  forall bigBuffer c,
  exists reads,
    let c' := snd (read_loop fuel bigBuffer c) in
    trace c' = (trace c ++ reads)%list /\ Forall is_read reads /\
    deadline c' = deadline c /\ outgoing c' = outgoing c /\
    clock c <= clock c' /\
    (forall t, deadline c = Some t -> clock c' <= Z.max (clock c) t).
Proof.
  induction fuel as [|fuel IH]; intros bigBuffer c.
  - exists []. cbn. rewrite app_nil_r. repeat split; try lia.
    constructor.
  - rewrite read_loop_turn. unfold read_turn. cbv zeta.
    set (r := hd closed_by_peer (incoming c)).
    assert (late :
      exists reads,
        trace (after_late_read c) = (trace c ++ reads)%list /\
        Forall is_read reads /\
        deadline (after_late_read c) = deadline c /\
        outgoing (after_late_read c) = outgoing c /\
        clock c <= clock (after_late_read c) /\
        (forall t, deadline c = Some t ->
                   clock (after_late_read c) <= Z.max (clock c) t)).
    { eexists. cbn. split; [reflexivity|].
      split; [repeat constructor|]. unfold gives_up_at.
      repeat split; destruct (deadline c); try lia.
      all: intros t' [= <-]; lia. }
    destruct (expires c (Z.max 0 (r_delay r))) eqn:E; [exact late|].
    clear late.
    assert (timely :
      trace (after_read c)
      = (trace c ++ [EvRead (delivered r) (r_err r)])%list /\
      deadline (after_read c) = deadline c /\
      outgoing (after_read c) = outgoing c /\
      clock c <= clock (after_read c) /\
      (forall t, deadline c = Some t ->
                 clock (after_read c) <= Z.max (clock c) t)).
    { cbn. fold r. repeat split; try lia.
      intros t Ht. unfold expires in E. rewrite Ht in E.
      apply Z.ltb_ge in E. lia. }
    destruct timely as (Ht & Hd & Ho & Hc & Hb).
    assert (stop : forall o : outcome (string * option error),
      exists reads,
        let c' := snd (o, after_read c) in
        trace c' = (trace c ++ reads)%list /\ Forall is_read reads /\
        deadline c' = deadline c /\ outgoing c' = outgoing c /\
        clock c <= clock c' /\
        (forall t, deadline c = Some t -> clock c' <= Z.max (clock c) t)).
    { intros o. eexists. cbn [snd]. cbv zeta.
      split; [exact Ht|]. split; [repeat constructor|]. auto. }
    destruct (r_err r) as [e|].
    + destruct (net_error_eqb e io_EOF); apply stop.
    + destruct (List.length (delivered r) <? 2)%nat; [apply stop|].
      destruct (terminated (delivered r)); [apply stop|].
      destruct (IH (bigBuffer ++ delivered r)%list (after_read c))
        as (reads & Ht' & Hr' & Hd' & Ho' & Hc' & Hb').
      exists (EvRead (delivered r) None :: reads). cbv zeta in *.
      rewrite Ht', Ht, <- app_assoc. split; [reflexivity|].
      split; [constructor; [exact I | exact Hr']|].
      split; [congruence|]. split; [congruence|]. split; [lia|].
      intros t Hdl. specialize (Hb t Hdl).
      rewrite Hd in Hb'. specialize (Hb' t Hdl). lia.
Qed.

(** [read] arms the deadline 30 seconds ahead, then only reads, and is back
    by then. *)
Lemma read_effect c :
  exists reads,
    let c' := snd (read c) in
    trace c' =
      (trace c ++ EvSetDeadline (clock c + 30 * time.Second) :: reads)%list /\
    Forall is_read reads /\
    deadline c' = Some (clock c + 30 * time.Second) /\
    outgoing c' = outgoing c /\
    clock c <= clock c' <= clock c + 30 * time.Second.
Proof.
  unfold read, bind, time.Now, conn.SetDeadline, conn.pending.
  cbn [clock deadline incoming outgoing trace].
  match goal with
  | |- context [read_loop ?f ?b ?s] =>
      destruct (read_loop_effect f b s) as (reads & Ht & Hr & Hd & Ho & Hc & Hb)
  end.
  cbv zeta in *. cbn [clock deadline incoming outgoing trace] in *.
  exists reads. rewrite Ht, <- app_assoc.
  split; [reflexivity|]. split; [exact Hr|]. split; [exact Hd|].
  split; [exact Ho|]. specialize (Hb _ eq_refl).
  unfold time.Second, time.Nanosecond in *. lia.
Qed.

(** *** Strings *)

Lemma append_empty_r s : s ++ EmptyString = s.
Proof. induction s as [|a s IH]; cbn; [reflexivity | now rewrite IH]. Qed.

Lemma append_assoc_r a b c : (a ++ b) ++ c = a ++ (b ++ c).
Proof. induction a as [|x a IH]; cbn; [reflexivity | now rewrite IH]. Qed.

Lemma append_inv_head a b c : a ++ b = a ++ c -> b = c.
Proof.
  induction a as [|x a IH]; cbn; [auto|]. intros [= H]. auto.
Qed.

Lemma upto_from n s : bufio.upto n s ++ bufio.from n s = s.
Proof.
  revert s. induction n as [|n IH]; intros [|a s]; cbn; try reflexivity.
  now rewrite IH.
Qed.

Lemma length_upto n s :
  String.length (bufio.upto n s) = Nat.min n (String.length s).
Proof.
  revert s. induction n as [|n IH]; intros [|a s]; cbn; try reflexivity.
  now rewrite IH.
Qed.

Lemma length_from n s :
  String.length (bufio.from n s) = (String.length s - n)%nat.
Proof.
  revert s. induction n as [|n IH]; intros [|a s]; cbn; try reflexivity.
  now rewrite IH.
Qed.

Lemma joined_app a b : joined (a ++ b) = joined a ++ joined b.
Proof.
  induction a as [|x a IH]; cbn; [reflexivity|].
  fold (joined (a ++ b)) (joined a). now rewrite IH, append_assoc_r.
Qed.

Lemma wire_app a b : wire (a ++ b) = wire a ++ wire b.
Proof. unfold wire. now rewrite written_app, joined_app. Qed.

Lemma wire_Write b res : wire [EvWrite b res] = b.
Proof. apply append_empty_r. Qed.

(** *** Events in order *)

Lemma quiet_Write b : quiet (EvWrite b None).
Proof. intros ne H. exact H. Qed.

Lemma quiet_SetDeadline t : quiet (EvSetDeadline t).
Proof. intros ne H. exact H. Qed.

Lemma quiet_Close : quiet EvClose.
Proof. intros ne H. exact H. Qed.

Lemma orderly_app a b res :
  Forall quiet a -> orderly b res -> orderly (a ++ b) res.
Proof.
  intros Ha Hb. destruct res as [ne|]; cbn in *.
  - destruct Hb as (before & ev & -> & Hq & Hf).
    exists (a ++ before)%list, ev. rewrite app_assoc.
    split; [reflexivity|]. split; [|exact Hf].
    apply Forall_app. now split.
  - apply Forall_app. now split.
Qed.

Lemma orderly_cons ev evs res :
  quiet ev -> orderly evs res -> orderly (ev :: evs) res.
Proof.
  intros Hq Ho. change (ev :: evs) with ([ev] ++ evs)%list.
  apply orderly_app; [now constructor | exact Ho].
Qed.

Lemma writes_only evs : Forall is_write evs -> closes evs = O.
Proof.
  induction 1 as [|e evs He _ IH]; [reflexivity|].
  destruct e; try contradiction. exact IH.
Qed.

(** *** The writer *)

(** One [Write] on a connection whose deadline is [t]. *)
Lemma Write_report b c t :
  deadline c = Some t -> clock c <= t ->
  exists res c',
    conn.Write b c = (Return res, c') /\
    trace c' = (trace c ++ [EvWrite b res])%list /\
    deadline c' = Some t /\ incoming c' = incoming c /\
    clock c <= clock c' <= t.
Proof.
  intros Hd Hc. unfold conn.Write. cbv zeta.
  destruct (expires c _) eqn:E.
  - do 2 eexists. split; [reflexivity|].
    cbn [trace deadline incoming clock]. unfold gives_up_at. rewrite Hd.
    repeat split; auto; lia.
  - do 2 eexists. split; [reflexivity|].
    cbn [trace deadline incoming clock].
    unfold expires in E. rewrite Hd in E. apply Z.ltb_ge in E.
    repeat split; auto; lia.
Qed.

Lemma WriteString_loop_stopped fuel b s c e :
  bufio.err b = Some e ->
  bufio.WriteString_loop fuel b s c = (Return (b, s), c).
Proof.
  intros He. destruct fuel; cbn [bufio.WriteString_loop]; [reflexivity|].
  rewrite He, andb_false_r. reflexivity.
Qed.

Lemma defaultBufSize_pos : (0 < bufio.defaultBufSize)%nat.
Proof. apply Nat.ltb_lt. vm_compute. reflexivity. Qed.

(** The loop of [WriteString] on a new writer: pieces go out one after the
    other until one fails or the rest fits the buffer. *)
Lemma WriteString_loop_report fuel :
  forall s c t,
    deadline c = Some t -> clock c <= t ->
    (String.length s < fuel)%nat ->
    exists b s' c' evs,
      bufio.WriteString_loop fuel bufio.NewWriter s c
      = (Return (b, s'), c') /\
      trace c' = (trace c ++ evs)%list /\ Forall is_write evs /\
      orderly evs (bufio.err b) /\
      (bufio.err b = None -> bufio.buf b = EmptyString /\ fits s') /\
      s = wire evs ++ s' /\
      (fits s -> evs = [] /\ s' = s /\ bufio.err b = None) /\
      deadline c' = Some t /\ incoming c' = incoming c /\
      clock c <= clock c' <= t.
Proof.
  pose proof defaultBufSize_pos as Hpos.
  induction fuel as [|fuel IH]; intros s c t Hd Hc Hf; [lia|].
  cbn [bufio.WriteString_loop].
  change (bufio.Available bufio.NewWriter)
    with (bufio.defaultBufSize - 0)%nat.
  rewrite Nat.sub_0_r. cbn [bufio.err bufio.buf bufio.NewWriter andb].
  rewrite andb_true_r.
  destruct (bufio.defaultBufSize <? String.length s)%nat eqn:L.
  - apply Nat.ltb_lt in L. cbn [append].
    unfold bind at 1. unfold bufio.Flush. cbn [bufio.err bufio.buf].
    replace (String.length (bufio.upto bufio.defaultBufSize s) =? 0)%nat
      with false
      by (symmetry; apply Nat.eqb_neq; rewrite length_upto; lia).
    unfold bind at 1.
    destruct (Write_report (bufio.upto bufio.defaultBufSize s) c t Hd Hc)
      as (res & c1 & HW & Ht1 & Hd1 & Hi1 & Hc1).
    rewrite HW. destruct res as [e|].
    + unfold ret at 1.
      rewrite (WriteString_loop_stopped
                 fuel (bufio.mkWriter (bufio.upto bufio.defaultBufSize s)
                                      (Some e)) _ _ e eq_refl).
      do 4 eexists. split; [reflexivity|]. split; [exact Ht1|].
      cbn [bufio.err].
      split; [repeat constructor|].
      split; [exists [], (EvWrite (bufio.upto bufio.defaultBufSize s)
                                   (Some e));
              repeat split; constructor|].
      split; [discriminate|].
      split; [now rewrite wire_Write, upto_from|].
      split; [unfold fits; lia|]. auto.
    + unfold ret at 1.
      destruct (IH (bufio.from bufio.defaultBufSize s) c1 t Hd1)
        as (b & s' & c' & evs & Hrun & Ht & Hw & Ho & Hb & Hs & _
            & Hd' & Hi' & Hc'); [lia | rewrite length_from; lia|].
      change (bufio.mkWriter EmptyString None) with bufio.NewWriter.
      rewrite Hrun.
      exists b, s', c',
        (EvWrite (bufio.upto bufio.defaultBufSize s) None :: evs).
      split; [reflexivity|].
      split; [rewrite Ht, Ht1, <- app_assoc; reflexivity|].
      split; [constructor; [exact I | exact Hw]|].
      split; [apply orderly_cons; [apply quiet_Write | exact Ho]|].
      split; [exact Hb|].
      split.
      { change (EvWrite ?p None :: evs)
          with ([EvWrite p None] ++ evs)%list.
        rewrite wire_app, wire_Write, append_assoc_r, <- Hs.
        now rewrite upto_from. }
      split; [unfold fits; lia|].
      split; [exact Hd'|]. split; [congruence | lia].
  - apply Nat.ltb_ge in L.
    exists bufio.NewWriter, s, c, []. split; [reflexivity|].
    rewrite app_nil_r. cbn [bufio.err bufio.buf bufio.NewWriter].
    repeat split; auto; try constructor; try lia.
Qed.

(** [write] arms the deadline 30 seconds ahead and hands the message to the
    connection piece by piece, all of it unless a [Write] fails; it returns
    the error of the [Write] that failed, and is back by the deadline. *)
Lemma write_report msg c :
  exists res c' evs,
    write msg c = (Return (lift res), c') /\
    trace c' =
      (trace c ++ EvSetDeadline (clock c + 30 * time.Second) :: evs)%list /\
    Forall is_write evs /\ orderly evs res /\
    (exists rest, msg = wire evs ++ rest) /\
    (res = None -> wire evs = msg) /\
    (fits msg ->
     wire evs = msg /\
     evs = match msg with
           | EmptyString => []
           | _ => [EvWrite msg res]
           end) /\
    deadline c' = Some (clock c + 30 * time.Second) /\
    incoming c' = incoming c /\
    clock c <= clock c' <= clock c + 30 * time.Second.
Proof.
  unfold write, bind, time.Now, conn.SetDeadline.
  set (t := clock c + 30 * time.Second).
  set (c0 := mkConn _ _ _ _ _).
  assert (Ht0 : clock c <= t)
    by (unfold t, time.Second, time.Nanosecond; lia).
  unfold bufio.WriteString, bind.
  destruct (WriteString_loop_report (S (String.length msg)) msg c0 t)
    as (b & s' & c1 & evs & Hrun & Ht & Hw & Ho & Hb & Hs & Hfit
        & Hd1 & Hi1 & Hc1); [reflexivity | exact Ht0 | lia |].
  subst c0. cbn [clock trace incoming] in Ht, Hi1, Hc1. rewrite Hrun.
  destruct (bufio.err b) as [e|] eqn:Eb.
  - unfold ret. exists (Some e), c1, evs. cbn [lift option_map].
    split; [reflexivity|].
    split; [rewrite Ht, <- app_assoc; reflexivity|].
    split; [exact Hw|]. split; [exact Ho|].
    split; [eauto|]. split; [discriminate|].
    split; [intros F; destruct (Hfit F) as (_ & _ & [=])|]. auto.
  - destruct (Hb eq_refl) as [Hbuf Hs'].
    unfold ret at 1. rewrite Hbuf. cbn [append].
    unfold bufio.Flush. cbn [bufio.err bufio.buf].
    destruct (String.length s' =? 0)%nat eqn:L.
    + apply Nat.eqb_eq in L.
      destruct s' as [|a s']; [|discriminate]. rewrite append_empty_r in Hs.
      unfold ret. exists None, c1, evs. cbn [lift option_map].
      split; [reflexivity|].
      split; [rewrite Ht, <- app_assoc; reflexivity|].
      split; [exact Hw|]. split; [exact Ho|].
      split; [exists EmptyString; now rewrite append_empty_r|].
      split; [auto|].
      split; [intros F; destruct (Hfit F) as (-> & <- & _); auto|]. auto.
    + unfold bind.
      destruct (Write_report s' c1 t Hd1) as (res & c2 & HW & Ht2 & Hd2
                                              & Hi2 & Hc2); [lia|].
      rewrite HW.
      assert (Hwire : wire (evs ++ [EvWrite s' res]) = msg)
        by (now rewrite wire_app, wire_Write).
      exists res, c2, (evs ++ [EvWrite s' res])%list.
      split; [destruct res; reflexivity|].
      split; [rewrite Ht2, Ht, <- !app_assoc; reflexivity|].
      split; [apply Forall_app; split; [exact Hw | repeat constructor]|].
      split.
      { destruct res as [e|]; cbn [orderly] in *.
        - exists evs, (EvWrite s' (Some e)). repeat split; auto.
        - apply Forall_app. split; [exact Ho|].
          constructor; [apply quiet_Write | constructor]. }
      split; [exists EmptyString; now rewrite append_empty_r|].
      split; [auto|].
      split.
      { intros F. split; [exact Hwire|].
        destruct (Hfit F) as (-> & -> & _). cbn [app].
        destruct msg; [discriminate | reflexivity]. }
      split; [exact Hd2|]. split; [congruence | lia].
Qed.

(* ================================================================= *)
(** ** The rounds of the handshake *)

Lemma handshake_speaks number message :
  Forall speaks (handshake number message).
Proof. repeat constructor. Qed.

Lemma net_error_eqb_EOF e : net_error_eqb e io_EOF = true <-> e = io_EOF.
Proof. destruct e; cbn; split; congruence. Qed.

(** [read] from the state in which its loop starts. *)
Lemma read_unfold c :
  read c =
  read_loop (S (List.length (incoming c))) []
            (mkConn (clock c) (Some (clock c + 30 * time.Second))
                    (incoming c) (outgoing c)
                    (trace c ++ [EvSetDeadline (clock c + 30 * time.Second)])).
Proof. reflexivity. Qed.

Lemma handshake_rejects number message :
  Forall rejects (handshake number message).
Proof. repeat constructor. Qed.

Lemma commands_cons r rs :
  commands (r :: rs) = (commands [r] ++ commands rs)%list.
Proof. unfold commands. cbn [flat_map]. now rewrite app_nil_r. Qed.

(** The loop of [read] goes on while the reads are not transport failures
    and returns the error of the first that is. *)
Lemma read_loop_orderly fuel :
  forall bigBuffer c,
  exists evs,
    trace (snd (read_loop fuel bigBuffer c)) = (trace c ++ evs)%list /\
    orderly evs (read_failure (fst (read_loop fuel bigBuffer c))).
Proof.
  induction fuel as [|fuel IH]; intros bigBuffer c.
  - exists []. cbn. rewrite app_nil_r. split; [reflexivity | constructor].
  - rewrite read_loop_turn. unfold read_turn. cbv zeta.
    set (r := hd closed_by_peer (incoming c)).
    destruct (expires c (Z.max 0 (r_delay r))).
    { eexists. cbn [fst snd after_late_read trace read_failure].
      split; [reflexivity|].
      exists [], (EvRead [] (Some ErrDeadlineExceeded)).
      repeat split; [constructor | discriminate]. }
    assert (one : forall o : outcome (string * option error),
      quiet (EvRead (delivered r) (r_err r)) ->
      read_failure o = None ->
      exists evs,
        trace (snd (o, after_read c)) = (trace c ++ evs)%list /\
        orderly evs (read_failure (fst (o, after_read c)))).
    { intros o Hq Ho. eexists. cbn [fst snd after_read trace]. fold r.
      split; [reflexivity|]. rewrite Ho. repeat constructor. exact Hq. }
    destruct (r_err r) as [e|] eqn:Er.
    + destruct (net_error_eqb e io_EOF) eqn:Ee.
      * apply net_error_eqb_EOF in Ee. subst e.
        apply one; [|reflexivity]. intros ne [_ H]. now apply H.
      * eexists. cbn [fst snd after_read trace read_failure]. fold r.
        rewrite Er. split; [reflexivity|].
        exists [], (EvRead (delivered r) (Some e)).
        repeat split; [constructor|]. intros ->. discriminate.
    + assert (Hq : quiet (EvRead (delivered r) None))
        by (intros ne H; exact H).
      destruct (_ <? 2)%nat; [now apply one|].
      destruct (terminated _); [now apply one|].
      destruct (IH (bigBuffer ++ delivered r)%list (after_read c))
        as (evs & Ht & Ho).
      exists (EvRead (delivered r) None :: evs).
      split; [|apply orderly_cons; assumption].
      rewrite Ht. cbn [after_read trace]. fold r. rewrite Er.
      now rewrite <- app_assoc.
Qed.

(** [read] in terms of what it does to the connection. *)
Lemma read_report c :
  exists evs,
    trace (snd (read c)) = (trace c ++ evs)%list /\
    orderly evs (read_failure (fst (read c))) /\
    written evs = [] /\ closes evs = O.
Proof.
  destruct (read_effect c) as (reads & Ht & Hr & _).
  cbv zeta in Ht. apply reads_only in Hr as [Hw Hc].
  exists (EvSetDeadline (clock c + 30 * time.Second) :: reads).
  split; [exact Ht|]. split; [|split; [exact Hw | exact Hc]].
  rewrite read_unfold in Ht |- *.
  match goal with
  | |- context [read_loop ?f ?b ?s] =>
      destruct (read_loop_orderly f b s) as (evs & Ht' & Ho)
  end.
  rewrite Ht' in Ht. cbn [trace] in Ht. rewrite <- app_assoc in Ht.
  apply app_inv_head in Ht. cbn [app] in Ht. injection Ht as <-.
  apply orderly_cons; [apply quiet_SetDeadline | exact Ho].
Qed.

(** A round hands the bytes of its command to the connection, all of them
    unless a [Write] fails, and nothing else; it does not close; it goes on
    while no [Write] and no [Read] fails and returns the error of the first
    that does. *)
Lemma exchange_report r c :
  exists evs,
    trace (snd (exchange r c)) = (trace c ++ evs)%list /\
    closes evs = O /\
    orderly evs (read_failure (fst (exchange r c))) /\
    (exists rest, joined (commands [r]) = wire evs ++ rest) /\
    (forall msg, fst (exchange r c) = Return (msg, None) ->
                 wire evs = joined (commands [r])) /\
    (Forall fits (commands [r]) ->
     wire evs = joined (commands [r]) /\
     (speaks r -> written evs = commands [r])).
Proof.
  unfold exchange, commands, speaks. cbn [flat_map].
  destruct (command r) as [cmd|]; cbn [app joined fold_right].
  - rewrite append_empty_r.
    destruct (write_report cmd c)
      as (res & c1 & evs & HW & Ht & Hw & Ho & Hrest & Hall & Hfit & _).
    unfold bind. rewrite HW.
    assert (Hwire : forall l,
      wire (EvSetDeadline (clock c + 30 * time.Second) :: l) = wire l)
      by reflexivity.
    destruct res as [ne|]; cbn [lift option_map].
    + exists (EvSetDeadline (clock c + 30 * time.Second) :: evs).
      cbn [fst snd ret read_failure]. split; [exact Ht|].
      split; [exact (writes_only _ Hw)|].
      split; [apply orderly_cons; [apply quiet_SetDeadline | exact Ho]|].
      rewrite Hwire. split; [exact Hrest|]. split; [discriminate|].
      intros F. pose proof (Forall_inv F) as Fc.
      destruct (Hfit Fc) as [H1 H2]. split; [exact H1|].
      intros Hs. rewrite H2. destruct cmd; [contradiction | reflexivity].
    + destruct (read_report c1) as (evr & Htr & Hor & Hwr & Hcr).
      exists (EvSetDeadline (clock c + 30 * time.Second) :: evs ++ evr).
      split; [rewrite Htr, Ht, <- app_assoc; reflexivity|].
      split.
      { change (closes (?e :: ?l)) with (closes l).
        now rewrite closes_app, (writes_only _ Hw), Hcr. }
      split.
      { apply orderly_cons; [apply quiet_SetDeadline|].
        apply orderly_app; [exact Ho | exact Hor]. }
      assert (Hfull : wire (evs ++ evr) = cmd).
      { rewrite wire_app, (Hall eq_refl). unfold wire. rewrite Hwr.
        apply append_empty_r. }
      rewrite Hwire, Hfull.
      split; [exists EmptyString; now rewrite append_empty_r|].
      split; [reflexivity|]. intros F. split; [reflexivity|].
      pose proof (Forall_inv F) as Fc.
      destruct (Hfit Fc) as [_ H2]. intros Hs.
      change (written (?e :: ?l)) with (written l).
      rewrite written_app, Hwr, H2, app_nil_r.
      destruct cmd; [contradiction | reflexivity].
  - destruct (read_report c) as (evr & Htr & Hor & Hwr & Hcr).
    exists evr. split; [exact Htr|]. split; [exact Hcr|].
    split; [exact Hor|].
    assert (Hw : wire evr = EmptyString) by (unfold wire; now rewrite Hwr).
    rewrite Hw. split; [exists EmptyString; reflexivity|].
    split; [reflexivity|]. intros _. split; [reflexivity|]. now intros _.
Qed.

(** [run] hands to the connection a beginning of the bytes of the commands
    of its rounds, goes on while no [Write] and no [Read] fails, and
    returns the error of the first that does; it does not close. *)
Lemma run_report rs :
  Forall rejects rs ->
  forall c,
  exists evs,
    trace (snd (run rs c)) = (trace c ++ evs)%list /\
    closes evs = O /\
    orderly evs (run_failure (fst (run rs c))) /\
    (exists rest, joined (commands rs) = wire evs ++ rest).
Proof.
  induction 1 as [|r rs Hr Hrs IH]; intros c.
  - exists []. cbn. rewrite app_nil_r. repeat split.
    + constructor.
    + exists EmptyString. reflexivity.
  - destruct (exchange_report r c)
      as (evs & Ht & Hc & Ho & Hrest & Hfull & _).
    rewrite commands_cons, joined_app.
    assert (stop : forall o : outcome (option error),
      run_failure o = read_failure (fst (exchange r c)) ->
      exists evs0,
        trace (snd (o, snd (exchange r c))) = (trace c ++ evs0)%list /\
        closes evs0 = O /\
        orderly evs0 (run_failure (fst (o, snd (exchange r c)))) /\
        (exists rest,
            joined (commands [r]) ++ joined (commands rs)
            = wire evs0 ++ rest)).
    { intros o Hf. exists evs. cbn [fst snd]. rewrite Hf.
      split; [exact Ht|]. split; [exact Hc|]. split; [exact Ho|].
      destruct Hrest as (rest & ->).
      exists (rest ++ joined (commands rs)). now rewrite append_assoc_r. }
    cbn [run]. unfold bind.
    destruct (exchange r c) as [[[msg [e|]]|e] c1] eqn:He;
      cbn [fst snd] in *.
    + apply stop. destruct e; reflexivity.
    + destruct (negb _).
      * apply stop. unfold rejects in Hr. cbn [ret run_failure].
        destruct (failure r); [reflexivity.. | contradiction].
      * destruct (IH c1) as (evs' & Ht' & Hc' & Ho' & rest & Hrest').
        exists (evs ++ evs')%list.
        split; [rewrite Ht', Ht, <- app_assoc; reflexivity|].
        split; [now rewrite closes_app, Hc, Hc'|].
        split; [apply orderly_app; [exact Ho | exact Ho']|].
        exists rest.
        now rewrite wire_app, (Hfull msg eq_refl), Hrest', append_assoc_r.
    + apply stop. reflexivity.
Qed.

(** Rounds the gateway accepts are gone through; [run] goes on with the
    rest. *)
Lemma run_accepted pre c ci :
  accepted pre c ci ->
  forall rest, run (pre ++ rest) c = run rest ci.
Proof.
  induction 1 as [c|r rs c msg c1 c2 He Hp _ IH]; intros rest;
    [reflexivity|].
  cbn [app run]. unfold bind. rewrite He, Hp. cbn [negb]. apply IH.
Qed.

(** Accepted rounds have handed all the bytes of their commands to the
    connection, without a failure; commands that fit the buffer went out in
    one [Write] each. *)
Lemma accepted_report pre c ci :
  accepted pre c ci ->
  exists evs,
    trace ci = (trace c ++ evs)%list /\
    closes evs = O /\ Forall quiet evs /\
    wire evs = joined (commands pre) /\
    (Forall fits (commands pre) -> Forall speaks pre ->
     written evs = commands pre).
Proof.
  induction 1 as [c|r rs c msg c1 c2 He Hp _ IH].
  - exists []. rewrite app_nil_r. repeat split; auto.
  - destruct (exchange_report r c)
      as (evs & Ht & Hc & Ho & _ & Hfull & Hfit).
    rewrite He in Ht, Ho, Hfull. cbn [fst snd read_failure orderly] in *.
    destruct IH as (evs' & Ht' & Hc' & Ho' & Hw' & Hfit').
    exists (evs ++ evs')%list.
    split; [rewrite Ht', Ht, <- app_assoc; reflexivity|].
    split; [now rewrite closes_app, Hc, Hc'|].
    split; [apply Forall_app; now split|].
    rewrite commands_cons.
    split; [now rewrite wire_app, joined_app, (Hfull msg eq_refl), Hw'|].
    intros F S. apply Forall_app in F as [F1 F2].
    pose proof (Forall_inv S) as Sr. pose proof (Forall_inv_tail S) as Ss.
    destruct (Hfit F1) as [_ Hr]. now rewrite written_app, Hr, Hfit'.
Qed.

(** The statements of one round of [SendPage] are one step of [run]. *)
Lemma run_greeting p e rs (k : M (option error)) :
  (forall c, k c = run rs c) ->
  forall c, (expect p orelse e in k) c = run (mkRound None p e :: rs) c.
Proof.
  intros Hk c. cbn [run]. unfold exchange, bind.
  cbn [command expected failure].
  destruct (read c) as [[[msg [e'|]]|] c1]; try reflexivity.
  destruct (negb _); [reflexivity | apply Hk].
Qed.

Lemma run_command cmd p e rs (k : M (option error)) :
  (forall c, k c = run rs c) ->
  forall c,
    (check write cmd in expect p orelse e in k) c =
    run (mkRound (Some cmd) p e :: rs) c.
Proof.
  intros Hk c. cbn [run]. unfold exchange, bind.
  cbn [command expected failure].
  destruct (write cmd c) as [[[e'|]|] c1]; try reflexivity.
  destruct (read c1) as [[[msg [e'|]]|] c2]; try reflexivity.
  destruct (negb _); [reflexivity | apply Hk].
Qed.

(** [SendPage] dials, goes through the rounds of [handshake], and closes. *)
Lemma SendPage_run dial address port number message :
  SendPage dial address port number message =
  match dial "tcp" (host_port address port) (30 * time.Second) with
  | inr connErr => (Return (Some (NetErr connErr)), None)
  | inl conn =>
      let (r, c') := run (handshake number message) conn in
      (r, Some (closed c'))
  end.
Proof.
  unfold SendPage.
  destruct (dial _ _ _) as [conn|connErr]; [|reflexivity].
  match goal with
  | |- context [defer conn.Close ?body conn] =>
      assert (H : forall c, body c = run (handshake number message) c)
  end.
  { unfold handshake. apply run_greeting.
    do 4 (apply run_command). reflexivity. }
  unfold defer. rewrite H.
  destruct (run _ conn) as [r c']. reflexivity.
Qed.

(* ================================================================= *)
(** ** How the loop of [read] ends *)

Lemma read_loop_exit fuel :
  forall bigBuffer c,
    (List.length (incoming c) < fuel)%nat ->
    exists tr ev,
      trace (snd (read_loop fuel bigBuffer c)) = (tr ++ [ev])%list /\
      stops_by (fst (read_loop fuel bigBuffer c)) ev /\
      (forall data, ev = EvRead data None ->
         exists r, In r (incoming c) /\ r_err r = None /\
                   data = delivered r).
Proof.
  induction fuel as [|fuel IH]; intros bigBuffer c Hf; [lia|].
  rewrite read_loop_turn. unfold read_turn. cbv zeta.
  set (r := hd closed_by_peer (incoming c)).
  destruct (expires c (Z.max 0 (r_delay r))).
  { do 2 eexists. cbn [fst snd after_late_read trace].
    split; [reflexivity|]. split; [now constructor | discriminate]. }
  assert (Hin : r_err r = None -> In r (incoming c)).
  { subst r. destruct (incoming c); cbn; [discriminate | auto]. }
  destruct (r_err r) as [e|] eqn:Er.
  - destruct (net_error_eqb e io_EOF) eqn:Ee.
    + apply net_error_eqb_EOF in Ee. subst e.
      do 2 eexists. cbn [fst snd after_read trace]. fold r. rewrite Er.
      split; [reflexivity|]. split; [constructor | discriminate].
    + do 2 eexists. cbn [fst snd after_read trace]. fold r. rewrite Er.
      split; [reflexivity|]. split; [|discriminate].
      constructor. intros ->. discriminate.
  - destruct (List.length (delivered r) <? 2)%nat eqn:L.
    { apply Nat.ltb_lt in L.
      do 2 eexists. cbn [fst snd after_read trace]. fold r. rewrite Er.
      split; [reflexivity|]. split; [now constructor|].
      intros data [= <-]. exists r. auto. }
    destruct (terminated (delivered r)) eqn:T.
    { do 2 eexists. cbn [fst snd after_read trace]. fold r. rewrite Er.
      split; [reflexivity|]. split; [now constructor|].
      intros data [= <-]. exists r. auto. }
    specialize (Hin eq_refl).
    assert (Hc : incoming c = r :: incoming (after_read c)).
    { subst r. cbn [after_read incoming].
      destruct (incoming c); [contradiction | reflexivity]. }
    destruct (IH (bigBuffer ++ delivered r)%list (after_read c))
      as (tr & ev & Ht & Hs & Hd).
    { rewrite Hc in Hf. cbn [List.length] in Hf. lia. }
    exists tr, ev. split; [exact Ht|]. split; [exact Hs|].
    intros data Hev. destruct (Hd data Hev) as (r' & Hr' & He' & Hdata).
    exists r'. rewrite Hc. cbn [In]. auto.
Qed.

(** Plain chunks that arrive before the deadline are added to the buffer one
    after the other. *)
Lemma read_loop_plain pre :
  forall fuel bigBuffer c rest t,
    Forall plain pre ->
    incoming c = (pre ++ rest)%list ->
    deadline c = Some t ->
    clock c + duration pre <= t ->
    exists c',
      read_loop (List.length pre + fuel) bigBuffer c =
      read_loop fuel (bigBuffer ++ List.concat (map delivered pre)) c' /\
      incoming c' = rest /\ deadline c' = Some t /\
      clock c' = clock c + duration pre.
Proof.
  induction pre as [|r pre IH]; intros fuel bigBuffer c rest t Hp Hi Hd Hc.
  - exists c. cbn. rewrite app_nil_r. repeat split; auto; lia.
  - inversion Hp as [|? ? (Er & Hl & Ht) Hp']; subst.
    cbn [duration fold_right] in Hc. fold (duration pre) in Hc.
    assert (0 <= duration pre).
    { clear. induction pre; cbn; [lia|]. fold (duration pre). lia. }
    cbn [List.length Nat.add]. rewrite read_loop_turn. unfold read_turn.
    rewrite Hi. cbn [app hd]. cbv zeta.
    unfold expires. rewrite Hd.
    replace (t <? clock c + Z.max 0 (r_delay r)) with false
      by (symmetry; apply Z.ltb_ge; lia).
    rewrite Er, Ht.
    replace (List.length (delivered r) <? 2)%nat with false
      by (symmetry; apply Nat.ltb_ge; lia).
    destruct (IH fuel (bigBuffer ++ delivered r)%list (after_read c) rest t)
      as (c' & Hrun & Hi' & Hd' & Hc'); auto.
    + cbn [after_read incoming]. now rewrite Hi.
    + cbn [after_read clock]. rewrite Hi. cbn [hd app]. lia.
    + exists c'. rewrite Hrun. cbn [map concat]. rewrite <- app_assoc.
      split; [reflexivity|]. split; [exact Hi'|]. split; [exact Hd'|].
      rewrite Hc'. cbn [after_read clock]. rewrite Hi. cbn [hd app].
      cbn [duration fold_right]. fold (duration pre). lia.
Qed.

(* ================================================================= *)
(** ** Lines on the wire *)

Lemma count_crlf_skip a t :
  Ascii.eqb a CR = false -> count_crlf (String a t) = count_crlf t.
Proof.
  intros H. destruct t as [|b t]; cbn [count_crlf]; [reflexivity|].
  rewrite H. reflexivity.
Qed.

Lemma count_crlf_before_space s t :
  count_crlf (s ++ String " " t) =
  (count_crlf s + count_crlf (String " " t))%nat.
Proof.
  induction s as [|a s IH]; [reflexivity|].
  destruct s as [|b s].
  - cbn [append]. cbn [count_crlf].
    replace (Ascii.eqb " " LF) with false by reflexivity.
    rewrite andb_false_r. reflexivity.
  - change (String a (String b s) ++ String " " t)
      with (String a (String b s ++ String " " t)).
    change (count_crlf (String a (String b s ++ String " " t)))
      with (if Ascii.eqb a CR && Ascii.eqb b LF
            then S (count_crlf (String b s ++ String " " t))
            else count_crlf (String b s ++ String " " t)).
    change (count_crlf (String a (String b s)))
      with (if Ascii.eqb a CR && Ascii.eqb b LF
            then S (count_crlf (String b s))
            else count_crlf (String b s)).
    rewrite IH. destruct (Ascii.eqb a CR && Ascii.eqb b LF); reflexivity.
Qed.

(** A command made of a verb, an argument, a space and CR LF ends one line
    more than its argument does. *)
Lemma count_crlf_PAGE number :
  count_crlf ("PAGE " ++ number ++ " " ++ CRLF) = S (count_crlf number).
Proof.
  cbn [append]. rewrite !count_crlf_skip by reflexivity.
  rewrite count_crlf_before_space. cbn. lia.
Qed.

Lemma count_crlf_MESS message :
  count_crlf ("MESS " ++ message ++ " " ++ CRLF) = S (count_crlf message).
Proof.
  cbn [append]. rewrite !count_crlf_skip by reflexivity.
  rewrite count_crlf_before_space. cbn. lia.
Qed.

(* ================================================================= *)
(** ** The handshake *)

Lemma handshake_split number message pre r post :
  handshake number message = (pre ++ r :: post)%list ->
  Forall speaks pre /\ speaks r /\
  nth_error protocol_errors (List.length pre) = Some (failure r) /\
  nth_error ["220"; "250"; "250"; "250"; "221"] (List.length pre)
  = Some (expected r).
Proof.
  intros H. pose proof (handshake_speaks number message) as Hs.
  rewrite H in Hs. apply Forall_app in Hs as [Hpre Hr].
  inversion Hr; subst. split; [exact Hpre|]. split; [assumption|].
  change protocol_errors with (map failure (handshake number message)).
  change ["220"; "250"; "250"; "250"; "221"]
    with (map expected (handshake number message)).
  rewrite H, !map_app. cbn [map].
  rewrite <- (length_map failure pre) at 1.
  rewrite <- (length_map expected pre).
  rewrite !nth_error_app2 by lia. rewrite !Nat.sub_diag. now split.
Qed.

(** C1.  Whatever the gateway answered before: when its answer in one of the
    five rounds (greeting, PAGE, MESS, SEND, QUIT) lacks the expected prefix
    (220, 250, 250, 250, 221), [SendPage] returns the error of that round
    (ErrFailedConnection, ErrRejectedPhone, ErrRejectedMessage,
    ErrFailedSend, ErrForceQuit, five different values), and the connection
    has been handed the bytes of the commands up to that round and not one
    byte of a later one (commands that fit the buffer of the writer in one
    [Write] each). *)
Theorem SendPage_rejection :
  forall dial address port number message conn pre r post ci msg c',
    dial "tcp" (host_port address port) (30 * time.Second) = inl conn ->
    handshake number message = (pre ++ r :: post)%list ->
    accepted pre conn ci ->
    exchange r ci = (Return (msg, None), c') ->
    HasPrefix msg (expected r) = false ->
    SendPage dial address port number message
    = (Return (Some (failure r)), Some (closed c')) /\
    wire (trace (closed c'))
    = wire (trace conn) ++ joined (commands (pre ++ [r])) /\
    (Forall fits (commands (pre ++ [r])) ->
     written (trace (closed c'))
     = (written (trace conn) ++ commands (pre ++ [r]))%list) /\
    nth_error protocol_errors (List.length pre) = Some (failure r) /\
    nth_error ["220"; "250"; "250"; "250"; "221"] (List.length pre)
    = Some (expected r) /\
    NoDup protocol_errors.
Proof.
  intros dial address port number message conn pre r post ci msg c'
         Hdial Hsplit Hacc Hex Hpre.
  destruct (handshake_split _ _ _ _ _ Hsplit) as (Hs & Hr & Hf & He).
  destruct (accepted_report _ _ _ Hacc) as (evs & Ht & _ & _ & Hw & Hl).
  destruct (exchange_report r ci) as (evs' & Ht' & _ & _ & _ & Hfull & Hfit).
  rewrite Hex in Ht', Hfull. cbn [fst snd] in Ht', Hfull.
  assert (Hc : commands (pre ++ [r])
               = (commands pre ++ commands [r])%list)
    by (unfold commands; apply flat_map_app).
  split; [|split; [|split; [|split; [exact Hf|split; [exact He|]]]]].
  - rewrite SendPage_run, Hdial, Hsplit, (run_accepted _ _ _ Hacc).
    cbn [run]. unfold bind. rewrite Hex, Hpre. reflexivity.
  - cbn [closed conn.log trace].
    rewrite Ht', Ht, !wire_app, Hw, (Hfull msg eq_refl), Hc, joined_app.
    change (wire [EvClose]) with EmptyString.
    now rewrite append_empty_r, append_assoc_r.
  - rewrite Hc. intros F. apply Forall_app in F as [F1 F2].
    cbn [closed conn.log trace].
    destruct (Hfit F2) as [_ Hone].
    rewrite Ht', Ht, !written_app, (Hl F1 Hs), (Hone Hr).
    cbn [written flat_map]. now rewrite app_nil_r, <- app_assoc.
  - unfold protocol_errors.
    repeat (constructor; [cbn; intuition discriminate|]). constructor.
Qed.

Lemma SendPage_rejection_witness :
  exists c',
    SendPage (sample.to sample.refuses_pager) "gateway" 444 "5551212" "hello"
    = (Return (Some ErrRejectedPhone), Some (closed c')) /\
    wire (trace (closed c')) = "PAGE 5551212 " ++ CRLF.
Proof.
  eexists.
  edestruct (SendPage_rejection
               (sample.to sample.refuses_pager) "gateway" 444%N
               "5551212" "hello" sample.refuses_pager
               (firstn 1 (handshake "5551212" "hello"))
               (mkRound (Some ("PAGE 5551212 " ++ CRLF)) "250"
                        ErrRejectedPhone)
               (skipn 2 (handshake "5551212" "hello")))
    as (Hr & Hw & _).
  - reflexivity.
  - reflexivity.
  - eapply accepted_cons;
      [vm_compute; reflexivity | reflexivity | apply accepted_nil].
  - vm_compute. reflexivity.
  - reflexivity.
  - split; [exact Hr | exact Hw].
Defined.

(** C3.  When the five answers of the gateway begin with 220, 250, 250, 250
    and 221, whatever follows the prefix in each, [SendPage] returns nil. *)
Theorem SendPage_success :
  forall dial address port number message conn c5,
    dial "tcp" (host_port address port) (30 * time.Second) = inl conn ->
    accepted (handshake number message) conn c5 ->
    SendPage dial address port number message
    = (Return None, Some (closed c5)).
Proof.
  intros dial address port number message conn c5 Hdial Hacc.
  rewrite SendPage_run, Hdial.
  rewrite <- (app_nil_r (handshake number message)).
  rewrite (run_accepted _ _ _ Hacc). reflexivity.
Qed.

Lemma SendPage_success_witness :
  exists c5,
    SendPage (sample.to sample.friendly) "gateway" 444 "5551212" "hello"
    = (Return None, Some (closed c5)).
Proof.
  eexists.
  apply (SendPage_success (sample.to sample.friendly) "gateway" 444%N
                          "5551212" "hello" sample.friendly).
  - reflexivity.
  - repeat (eapply accepted_cons; [vm_compute; reflexivity | reflexivity |]).
    apply accepted_nil.
Defined.

(** C4.  When the dial succeeds, [SendPage] leaves the connection closed
    exactly once, and closing is the last thing done to it, whether the
    function returns nil, a rejection, a transport error, or panics. *)
Theorem SendPage_closes_once :
  forall dial address port number message conn,
    dial "tcp" (host_port address port) (30 * time.Second) = inl conn ->
    exists r c' evs,
      SendPage dial address port number message = (r, Some c') /\
      trace c' = (trace conn ++ evs ++ [EvClose])%list /\
      closes evs = O /\
      closes (trace c') = S (closes (trace conn)).
Proof.
  intros dial address port number message conn Hdial.
  rewrite SendPage_run, Hdial.
  destruct (run_report _ (handshake_rejects number message) conn)
    as (evs & Ht & Hc & _).
  destruct (run (handshake number message) conn) as [r c1].
  cbn [snd] in Ht. exists r, (closed c1), evs.
  split; [reflexivity|]. cbn [closed conn.log trace].
  rewrite Ht, <- app_assoc. split; [reflexivity|]. split; [exact Hc|].
  rewrite !closes_app, Hc. cbn. lia.
Qed.

Lemma SendPage_closes_once_witness :
  exists r c' evs,
    SendPage (sample.to sample.one_byte) "gateway" 444 "5551212" "hello"
    = (r, Some c') /\
    trace c' = (trace sample.one_byte ++ evs ++ [EvClose])%list /\
    closes evs = O /\
    closes (trace c') = S (closes (trace sample.one_byte)).
Proof.
  apply (SendPage_closes_once (sample.to sample.one_byte) "gateway" 444%N
                              "5551212" "hello" sample.one_byte).
  reflexivity.
Defined.

Lemma read_exit c :
  exists tr ev,
    trace (snd (read c)) = (tr ++ [ev])%list /\
    stops_by (fst (read c)) ev /\
    (forall data, ev = EvRead data None ->
       exists r, In r (incoming c) /\ r_err r = None /\ data = delivered r).
Proof.
  unfold read, bind, time.Now, conn.SetDeadline, conn.pending.
  cbn [incoming].
  match goal with
  | |- context [read_loop ?f ?b ?s] =>
      destruct (read_loop_exit f b s) as (tr & ev & H)
  end.
  - cbn [incoming]. lia.
  - exists tr, ev. exact H.
Qed.

(** A run that returns nil has had every round accepted. *)
Lemma run_nil rs :
  forall c c', run rs c = (Return None, c') -> accepted rs c c'.
Proof.
  induction rs as [|r rs IH]; intros c c' H.
  - injection H as <-. constructor.
  - cbn [run] in H. unfold bind in H.
    destruct (exchange r c) as [[[msg [e|]]|e] c1] eqn:He;
      try discriminate.
    destruct (HasPrefix msg (expected r)) eqn:Hp; cbn [negb] in H;
      [|discriminate].
    econstructor; eauto.
Qed.

(** A run that returns an error has failed in one round, by the prefix of
    the answer or by the error of the exchange, after the rounds before it
    were accepted. *)
Lemma run_error rs :
  forall c e c',
    run rs c = (Return (Some e), c') ->
    exists pre r post ci msg,
      rs = (pre ++ r :: post)%list /\ accepted pre c ci /\
      ((exchange r ci = (Return (msg, None), c') /\
        HasPrefix msg (expected r) = false /\ e = failure r) \/
       exchange r ci = (Return (msg, Some e), c')).
Proof.
  induction rs as [|r rs IH]; intros c e c' H; [discriminate|].
  cbn [run] in H. unfold bind in H.
  destruct (exchange r c) as [[[msg [e'|]]|e'] c1] eqn:He;
    try discriminate.
  - injection H as <- <-.
    exists [], r, rs, c, msg. split; [reflexivity|].
    split; [constructor|]. right. exact He.
  - destruct (HasPrefix msg (expected r)) eqn:Hp; cbn [negb] in H.
    + destruct (IH _ _ _ H) as (pre & r' & post & ci & msg' & -> & Ha & Hr).
      exists (r :: pre), r', post, ci, msg'. split; [reflexivity|].
      split; [econstructor; eauto | exact Hr].
    + injection H as <- <-.
      exists [], r, rs, c, msg. split; [reflexivity|].
      split; [constructor|]. left. auto.
Qed.

(** The error of a round is one of the connection. *)
Lemma exchange_error r c msg e c' :
  exchange r c = (Return (msg, Some e), c') ->
  exists ne, e = NetErr ne.
Proof.
  assert (R : forall c0,
    read c0 = (Return (msg, Some e), c') -> exists ne, e = NetErr ne).
  { intros c0 H. destruct (read_exit c0) as (tr & ev & _ & Hs & _).
    rewrite H in Hs. cbn [fst] in Hs. inversion Hs; subst. eauto. }
  unfold exchange. destruct (command r) as [cmd|]; [|apply R].
  destruct (write_report cmd c) as (res & c1 & evs & HW & _).
  unfold bind. rewrite HW.
  destruct res as [ne|]; cbn [lift option_map]; [|apply R].
  intros [= _ <- _]. eauto.
Qed.

Lemma transport_failure_one ev ne ne' :
  transport_failure ev ne -> transport_failure ev ne' -> ne = ne'.
Proof.
  destruct ev as [| data [e|] | data [e|] |]; cbn; try contradiction.
  - intros [<- _] [<- _]. reflexivity.
  - congruence.
Qed.

(** Among quiet events a transport failure is found in one place only. *)
Lemma sole_failure l :
  forall x l2 before ev after ne,
    (l ++ x :: l2 = before ++ ev :: after)%list ->
    Forall quiet l -> Forall quiet l2 ->
    transport_failure ev ne ->
    before = l /\ ev = x /\ after = l2.
Proof.
  assert (among : forall (evs a b : list event) ev ne,
    evs = (a ++ ev :: b)%list -> Forall quiet evs ->
    transport_failure ev ne -> False).
  { intros evs a b ev ne -> Hq Hf.
    apply Forall_app in Hq as [_ Hq]. exact (Forall_inv Hq ne Hf). }
  induction l as [|a l IH]; intros x l2 before ev after ne H Hl Hl2 Hf.
  - destruct before as [|y before]; cbn [app] in H.
    + injection H as <- <-. auto.
    + injection H as _ H. destruct (among _ _ _ _ _ H Hl2 Hf).
  - destruct before as [|y before]; cbn [app] in H.
    + injection H as <- _. destruct (Forall_inv Hl ne Hf).
    + injection H as <- H.
      destruct (IH _ _ _ _ _ _ H (Forall_inv_tail Hl) Hl2 Hf)
        as (-> & -> & ->).
      auto.
Qed.

(** C7.  Whenever a [Write] on the connection fails, or a [Read] fails with
    an error other than end of input, in whatever round of the handshake,
    [SendPage] returns that very error, which is none of the five
    rejections; nothing more is done with the connection but closing it,
    so no later step is run.  The rounds before were accepted and the
    failure is that of the round reached. *)
Theorem SendPage_transport_error :
  forall dial address port number message conn o c' before ev after ne,
    dial "tcp" (host_port address port) (30 * time.Second) = inl conn ->
    SendPage dial address port number message = (o, Some c') ->
    trace c' = (trace conn ++ before ++ ev :: after)%list ->
    transport_failure ev ne ->
    o = Return (Some (NetErr ne)) /\
    after = [EvClose] /\
    ~ In (NetErr ne) protocol_errors /\
    exists pre r post ci msg c1,
      handshake number message = (pre ++ r :: post)%list /\
      accepted pre conn ci /\
      exchange r ci = (Return (msg, Some (NetErr ne)), c1) /\
      c' = closed c1.
Proof.
  intros dial address port number message conn o c' before ev after ne
         Hdial Hrun Htr Hf.
  rewrite SendPage_run, Hdial in Hrun.
  destruct (run_report _ (handshake_rejects number message) conn)
    as (evs & Ht & _ & Ho & _).
  destruct (run (handshake number message) conn) as [o1 c1] eqn:Hr.
  injection Hrun as -> <-. cbn [fst snd] in Ht, Ho.
  cbn [closed conn.log trace] in Htr.
  rewrite Ht, <- app_assoc in Htr. apply app_inv_head in Htr.
  destruct (run_failure o) as [ne'|] eqn:Hfail; cbn [orderly] in Ho.
  - destruct Ho as (b0 & ev0 & -> & Hq & Hf0).
    rewrite <- app_assoc in Htr. cbn [app] in Htr.
    destruct (sole_failure _ _ _ _ _ _ _ Htr Hq
                (Forall_cons _ quiet_Close (Forall_nil _)) Hf)
      as (-> & -> & ->).
    rewrite (transport_failure_one _ _ _ Hf Hf0).
    assert (Hret : o = Return (Some (NetErr ne'))).
    { destruct o as [[[| | | | |n]|]|]; try discriminate.
      now injection Hfail as ->. }
    subst o. split; [reflexivity|]. split; [reflexivity|].
    split; [cbn; intuition discriminate|].
    destruct (run_error _ _ _ _ Hr)
      as (pre & r & post & ci & msg & Hsplit & Hacc & Hcase).
    exists pre, r, post, ci, msg, c1. split; [exact Hsplit|].
    split; [exact Hacc|]. split; [|reflexivity].
    destruct Hcase as [(_ & _ & He)|He]; [|exact He].
    pose proof (handshake_rejects number message) as Hrej.
    rewrite Hsplit in Hrej. apply Forall_app in Hrej as [_ Hrej].
    apply Forall_inv in Hrej. unfold rejects in Hrej.
    rewrite <- He in Hrej. contradiction.
  - exfalso.
    assert (Hq : Forall quiet (evs ++ [EvClose])).
    { apply Forall_app. split; [exact Ho|].
      constructor; [apply quiet_Close | constructor]. }
    rewrite Htr in Hq. apply Forall_app in Hq as [_ Hq].
    exact (Forall_inv Hq ne Hf).
Qed.

Lemma SendPage_transport_error_witness :
  fst (SendPage (sample.to sample.resets) "gateway" 444 "5551212" "hello")
  = Return (Some (NetErr (OpError "connection reset by peer"))) /\
  ~ In (NetErr (OpError "connection reset by peer")) protocol_errors.
Proof.
  edestruct (SendPage_transport_error
               (sample.to sample.resets) "gateway" 444%N "5551212" "hello"
               sample.resets
               (fst (SendPage (sample.to sample.resets) "gateway" 444%N
                              "5551212" "hello")))
    as (Hr & _ & Hn & _).
  - reflexivity.
  - vm_compute. reflexivity.
  - vm_compute.
    instantiate (3 := [_; _; _; _; _]). instantiate (2 := EvRead [] _).
    reflexivity.
  - cbn. split; [reflexivity | discriminate].
  - split; [exact Hr | exact Hn].
Defined.

(* ================================================================= *)
(** ** The frame reader *)

(** C2.  A chunk of fewer than two bytes, read without error, makes the
    index expression of the terminator test of [read] go below zero: [read]
    panics, and so does [SendPage] when this is the first chunk of the
    greeting.  The chunk is not treated as one without terminator. *)
Theorem read_short_chunk_panics :
  forall dial address port number message c r rest,
    dial "tcp" (host_port address port) (30 * time.Second) = inl c ->
    incoming c = r :: rest ->
    r_err r = None ->
    (List.length (delivered r) < 2)%nat ->
    r_delay r <= 30 * time.Second ->
    let oops :=
      index_out_of_range (Z.of_nat (List.length (delivered r)) - 2) 256 in
    fst (read c) = Panic oops /\
    fst (SendPage dial address port number message) = Panic oops.
Proof.
  intros dial address port number message c r rest Hdial Hi Er Hl Hd oops.
  assert (H : fst (read c) = Panic oops).
  { rewrite read_unfold, read_loop_turn. unfold read_turn, expires.
    cbn [incoming deadline clock]. rewrite Hi. cbn [hd]. cbv zeta.
    replace (_ <? _) with false
      by (symmetry; apply Z.ltb_ge;
          unfold time.Second, time.Nanosecond in *; lia).
    rewrite Er.
    replace (_ <? 2)%nat with true by (symmetry; apply Nat.ltb_lt; lia).
    reflexivity. }
  split; [exact H|].
  rewrite SendPage_run, Hdial. unfold handshake. cbn [run].
  unfold exchange, bind. cbn [command].
  destruct (read c) as [[a|e] c1]; cbn [fst] in H; [discriminate|].
  cbn [fst]. injection H as ->. reflexivity.
Qed.

Lemma read_short_chunk_panics_witness :
  fst (read sample.one_byte) = Panic (index_out_of_range (-1) 256) /\
  fst (SendPage (sample.to sample.one_byte) "gateway" 444 "5551212" "hello")
  = Panic (index_out_of_range (-1) 256).
Proof.
  apply (read_short_chunk_panics
           (sample.to sample.one_byte) "gateway" 444%N "5551212" "hello"
           sample.one_byte (mkRead 0 (sample.bytes "2") None) []).
  - reflexivity.
  - reflexivity.
  - reflexivity.
  - cbn. lia.
  - vm_compute. discriminate.
Defined.

(** C5, counterexample.  The bytes "220 ok" arrive together with the end of
    input: [read] returns the empty text. *)
Lemma read_drops_bytes_at_end_of_input : ~ end_of_input_keeps_all_bytes.
Proof.
  intros H.
  specialize (H sample.bytes_with_EOF []
                (mkRead 0 (sample.bytes "220 ok") (Some io_EOF)) []
                eq_refl (Forall_nil _) eq_refl).
  assert (D : duration ([] ++ [mkRead 0 (sample.bytes "220 ok")
                                      (Some io_EOF)])
              <= 30 * time.Second) by (vm_compute; discriminate).
  specialize (H D). vm_compute in H. discriminate.
Qed.

(** C5, amended.  When the chunks before the end of input come without
    error and in time, have at least two bytes each and no terminator at
    their end, and the end of input is then signalled in time (by a [Read]
    that reports [io.EOF], with or without bytes, or because the peer has
    closed), [read] returns without error the text made of those chunks. *)
Theorem read_end_of_input :
  forall c pre rest,
    incoming c = (pre ++ rest)%list ->
    Forall plain pre ->
    r_err (hd closed_by_peer rest) = Some io_EOF ->
    duration pre + Z.max 0 (r_delay (hd closed_by_peer rest))
    <= 30 * time.Second ->
    fst (read c) = Return (String_ (List.concat (map delivered pre)), None).
Proof.
  intros c pre rest Hi Hp He Hd.
  assert (0 <= duration pre).
  { clear. induction pre; cbn; [lia|]. fold (duration pre). lia. }
  rewrite read_unfold, Hi, length_app.
  replace (S (List.length pre + List.length rest))
    with (List.length pre + S (List.length rest))%nat by lia.
  edestruct (read_loop_plain pre (S (List.length rest)) [])
    as (c' & Hrun & Hi' & Hd' & Hc'); [exact Hp | | | | rewrite Hrun].
  - reflexivity.
  - reflexivity.
  - cbn [clock]. lia.
  - cbn [clock] in Hc'. rewrite read_loop_turn. unfold read_turn, expires.
    rewrite Hi', Hd', Hc'. cbv zeta.
    replace (_ <? _) with false by (symmetry; apply Z.ltb_ge; lia).
    rewrite He. reflexivity.
Qed.

Lemma read_end_of_input_witness :
  fst (read sample.bytes_with_EOF) = Return (EmptyString, None).
Proof.
  apply (read_end_of_input sample.bytes_with_EOF []
           [mkRead 0 (sample.bytes "220 ok") (Some io_EOF)]).
  - reflexivity.
  - constructor.
  - reflexivity.
  - vm_compute. discriminate.
Defined.

(* ================================================================= *)
(** ** The commands on the wire *)


Lemma wire_closed c : wire (trace (closed c)) = wire (trace c).
Proof.
  cbn [closed conn.log trace]. rewrite wire_app. apply append_empty_r.
Qed.

(** What [SendPage] hands to the connection is a beginning of the bytes of
    the four commands. *)
Lemma SendPage_wire dial address port number message conn :
  dial "tcp" (host_port address port) (30 * time.Second) = inl conn ->
  exists o c' sent rest,
    SendPage dial address port number message = (o, Some c') /\
    wire (trace c') = wire (trace conn) ++ sent /\
    joined (wire_commands number message) = sent ++ rest.
Proof.
  intros Hdial. rewrite SendPage_run, Hdial.
  destruct (run_report _ (handshake_rejects number message) conn)
    as (evs & Ht & _ & _ & rest & Hrest).
  destruct (run (handshake number message) conn) as [o c1].
  cbn [snd] in Ht. exists o, (closed c1), (wire evs), rest.
  split; [reflexivity|]. split; [|exact Hrest].
  now rewrite wire_closed, Ht, wire_app.
Qed.

(** Once the rounds [pre] are accepted the bytes of their commands have been
    handed over. *)
Lemma SendPage_wire_accepted
      dial address port number message conn pre post ci :
  dial "tcp" (host_port address port) (30 * time.Second) = inl conn ->
  handshake number message = (pre ++ post)%list ->
  accepted pre conn ci ->
  exists o c' rest,
    SendPage dial address port number message = (o, Some c') /\
    wire (trace c')
    = wire (trace conn) ++ joined (commands pre) ++ rest.
Proof.
  intros Hdial Hsplit Hacc.
  pose proof (handshake_rejects number message) as Hrej.
  rewrite Hsplit in Hrej. apply Forall_app in Hrej as [_ Hrej].
  rewrite SendPage_run, Hdial, Hsplit, (run_accepted _ _ _ Hacc).
  destruct (accepted_report _ _ _ Hacc) as (evs & Ht & _ & _ & Hw & _).
  destruct (run_report _ Hrej ci) as (evs' & Ht' & _).
  destruct (run post ci) as [o c1]. cbn [snd] in Ht'.
  exists o, (closed c1), (wire evs'). split; [reflexivity|].
  now rewrite wire_closed, Ht', Ht, !wire_app, Hw, append_assoc_r.
Qed.

(** The round after accepted rounds is started. *)
Lemma run_starts r post c :
  Forall rejects post ->
  exists evs,
    trace (snd (run (r :: post) c))
    = (trace (snd (exchange r c)) ++ evs)%list.
Proof.
  intros Hrej. cbn [run]. unfold bind.
  destruct (exchange r c) as [[[msg [e|]]|e] c1]; cbn [snd].
  - exists []. now rewrite app_nil_r.
  - destruct (negb _).
    + exists []. now rewrite app_nil_r.
    + destruct (run_report _ Hrej c1) as (evs & Ht & _). eauto.
  - exists []. now rewrite app_nil_r.
Qed.

(** Once the rounds [pre] are accepted, the command of the round after them
    is handed over as well, if it fits the buffer of the writer. *)
Lemma SendPage_wire_next
      dial address port number message conn pre r post ci :
  dial "tcp" (host_port address port) (30 * time.Second) = inl conn ->
  handshake number message = (pre ++ r :: post)%list ->
  accepted pre conn ci ->
  Forall fits (commands [r]) ->
  exists o c' rest,
    SendPage dial address port number message = (o, Some c') /\
    wire (trace c')
    = wire (trace conn) ++ joined (commands (pre ++ [r])) ++ rest.
Proof.
  intros Hdial Hsplit Hacc Hfit.
  pose proof (handshake_rejects number message) as Hrej.
  rewrite Hsplit in Hrej. apply Forall_app in Hrej as [_ Hrej].
  apply Forall_inv_tail in Hrej.
  rewrite SendPage_run, Hdial, Hsplit, (run_accepted _ _ _ Hacc).
  destruct (accepted_report _ _ _ Hacc) as (evs & Ht & _ & _ & Hw & _).
  destruct (exchange_report r ci) as (evs1 & Ht1 & _ & _ & _ & _ & Hone).
  destruct (Hone Hfit) as [Hw1 _].
  destruct (run_starts r post ci Hrej) as (evs2 & Ht2).
  destruct (run (r :: post) ci) as [o c1]. cbn [snd] in Ht2.
  exists o, (closed c1), (wire evs2). split; [reflexivity|].
  assert (Hc : commands (pre ++ [r])
               = (commands pre ++ commands [r])%list)
    by (unfold commands; apply flat_map_app).
  rewrite wire_closed, Ht2, Ht1, Ht, !wire_app, Hw, Hw1, Hc, joined_app.
  now rewrite !append_assoc_r.
Qed.




(** C9.  [SendPage] puts its arguments into the commands as they are, for
    all strings [number] and [message]: the bytes handed to the connection
    are a beginning of "PAGE " + number + " \r\n" followed by
    "MESS " + message + " \r\n", "SEND \r\n" and "QUIT \r\n"; all of
    the PAGE command once the greeting and PAGE are accepted, and then all
    of the MESS command if it fits the buffer of the writer or once MESS is
    accepted.  Each CR LF inside an argument is one more line on the
    wire. *)
Theorem SendPage_arguments_verbatim :
  forall dial address port number message conn,
    dial "tcp" (host_port address port) (30 * time.Second) = inl conn ->
    let PAGE := "PAGE " ++ number ++ " " ++ CRLF in
    let MESS := "MESS " ++ message ++ " " ++ CRLF in
    exists r c' sent,
      SendPage dial address port number message = (r, Some c') /\
      wire (trace c') = wire (trace conn) ++ sent /\
      (exists rest,
          PAGE ++ MESS ++ ("SEND " ++ CRLF) ++ ("QUIT " ++ CRLF)
          = sent ++ rest) /\
      (forall c2,
          accepted (firstn 2 (handshake number message)) conn c2 ->
          (exists rest, sent = PAGE ++ rest) /\
          (fits MESS -> exists rest, sent = PAGE ++ MESS ++ rest)) /\
      (forall c3,
          accepted (firstn 3 (handshake number message)) conn c3 ->
          exists rest, sent = PAGE ++ MESS ++ rest) /\
      count_crlf PAGE = S (count_crlf number) /\
      count_crlf MESS = S (count_crlf message).
Proof.
  intros dial address port number message conn Hdial PAGE MESS.
  destruct (SendPage_wire dial address port number message conn Hdial)
    as (r & c' & sent & rest & Hrun & Hw & Hrest).
  exists r, c', sent.
  split; [exact Hrun|]. split; [exact Hw|]. split; [|split; [|split]].
  - exists rest. rewrite <- Hrest. unfold wire_commands.
    cbn [joined fold_right]. now rewrite append_empty_r.
  - intros c2 Hacc. split.
    + destruct (SendPage_wire_accepted
                  dial address port number message conn
                  (firstn 2 (handshake number message))
                  (skipn 2 (handshake number message))
                  c2 Hdial eq_refl Hacc)
        as (o & c'' & rest' & Hrun' & Hw').
      rewrite Hrun in Hrun'. injection Hrun' as _ <-.
      rewrite Hw in Hw'. apply append_inv_head in Hw'.
      exists rest'. rewrite Hw'.
      cbn [handshake firstn commands flat_map command app joined fold_right].
      now rewrite append_empty_r.
    + intros Hfit.
      destruct (SendPage_wire_next
                  dial address port number message conn
                  (firstn 2 (handshake number message))
                  (mkRound (Some MESS) "250" ErrRejectedMessage)
                  (skipn 3 (handshake number message))
                  c2 Hdial eq_refl Hacc)
        as (o & c'' & rest' & Hrun' & Hw').
      { constructor; [exact Hfit | constructor]. }
      rewrite Hrun in Hrun'. injection Hrun' as _ <-.
      rewrite Hw in Hw'. apply append_inv_head in Hw'.
      exists rest'. rewrite Hw'.
      cbn [handshake firstn commands flat_map command app joined fold_right].
      now rewrite append_empty_r, append_assoc_r.
  - intros c3 Hacc.
    destruct (SendPage_wire_accepted
                dial address port number message conn
                (firstn 3 (handshake number message))
                (skipn 3 (handshake number message))
                c3 Hdial eq_refl Hacc)
      as (o & c'' & rest' & Hrun' & Hw').
    rewrite Hrun in Hrun'. injection Hrun' as _ <-.
    rewrite Hw in Hw'. apply append_inv_head in Hw'.
    exists rest'. rewrite Hw'.
    cbn [handshake firstn commands flat_map command app joined fold_right].
    now rewrite append_empty_r, append_assoc_r.
  - split; [apply count_crlf_PAGE | apply count_crlf_MESS].
Qed.

Lemma SendPage_arguments_verbatim_witness :
  exists r c' sent,
    SendPage (sample.to sample.friendly) "gateway" 444
             ("5551212 " ++ CRLF ++ "QUIT") "hello"
    = (r, Some c') /\
    wire (trace c') = wire (trace sample.friendly) ++ sent /\
    (exists rest, sent = ("PAGE 5551212 " ++ CRLF ++ "QUIT " ++ CRLF)
                         ++ ("MESS hello " ++ CRLF) ++ rest) /\
    count_crlf ("PAGE 5551212 " ++ CRLF ++ "QUIT " ++ CRLF) = 2%nat.
Proof.
  destruct (SendPage_arguments_verbatim
              (sample.to sample.friendly) "gateway" 444%N
              ("5551212 " ++ CRLF ++ "QUIT") "hello" sample.friendly
              eq_refl)
    as (r & c' & sent & Hrun & Hw & _ & _ & H3 & Hp & _).
  exists r, c', sent. split; [exact Hrun|]. split; [exact Hw|].
  split; [|exact Hp].
  eapply H3.
  repeat (eapply accepted_cons; [vm_compute; reflexivity | reflexivity |]).
  apply accepted_nil.
Defined.

(* ================================================================= *)
(** ** Deadlines *)






(* ================================================================= *)
(** ** More on the frame reader *)

Lemma duration_app a b : duration (a ++ b) = duration a + duration b.
Proof.
  induction a as [|r a IH]; [reflexivity|].
  cbn [app duration fold_right]. fold (duration (a ++ b)) (duration a).
  rewrite IH. lia.
Qed.

Lemma duration_nonneg rs : 0 <= duration rs.
Proof.
  induction rs as [|r rs IH]; cbn; [lia|]. fold (duration rs). lia.
Qed.

Lemma terminated_split chunk :
  terminated chunk = true -> exists l, chunk = (l ++ [x0d; x0a])%list.
Proof.
  unfold terminated. intros H.
  rewrite <- (rev_involutive chunk).
  destruct (rev chunk) as [|b [|a l]]; try discriminate.
  apply andb_true_iff in H as [Ha Hb].
  apply N.eqb_eq in Ha, Hb.
  apply Byte.to_of_N_iff in Ha, Hb. cbn in Ha, Hb.
  injection Ha as <-. injection Hb as <-.
  exists (rev l). cbn [rev]. now rewrite <- app_assoc.
Qed.

Lemma String_app a b : String_ (a ++ b) = String_ a ++ String_ b.
Proof.
  unfold String_, string_of_list_byte.
  induction a as [|x a IH]; [reflexivity|].
  cbn [app map string_of_list_ascii append]. now rewrite IH.
Qed.

(** X1.  When the chunks of an answer come without error and in time, each
    of at least two bytes, and the last of them is the first to end with
    CR LF, [read] returns without error the text of all of them, which ends
    with CR LF, and leaves what the gateway sent after it unread. *)
Theorem read_returns_frame :
  forall c pre last rest,
    incoming c = (pre ++ last :: rest)%list ->
    Forall plain pre ->
    r_err last = None ->
    terminated (delivered last) = true ->
    duration (pre ++ [last]) <= 30 * time.Second ->
    exists c' body,
      read c = (Return (body ++ CRLF, None), c') /\
      String_ (List.concat (map delivered pre) ++ delivered last)
      = body ++ CRLF /\
      incoming c' = rest.
Proof.
  intros c pre last rest Hi Hp Er Ht Hd.
  rewrite duration_app in Hd. cbn [duration fold_right] in Hd.
  pose proof (duration_nonneg pre) as Hn.
  destruct (terminated_split _ Ht) as (l & Hl).
  assert (L : (2 <= List.length (delivered last))%nat)
    by (rewrite Hl, length_app; cbn; lia).
  rewrite read_unfold, Hi, length_app. cbn [List.length].
  replace (S (List.length pre + S (List.length rest)))
    with (List.length pre + S (S (List.length rest)))%nat by lia.
  edestruct (read_loop_plain pre (S (S (List.length rest))) [])
    as (c1 & Hrun & Hi1 & Hd1 & Hc1); [exact Hp | | | | rewrite Hrun].
  - reflexivity.
  - reflexivity.
  - cbn [clock]. lia.
  - cbn [clock] in Hc1. rewrite read_loop_turn. unfold read_turn, expires.
    rewrite Hi1, Hd1, Hc1. cbn [hd]. cbv zeta.
    replace (_ <? _) with false by (symmetry; apply Z.ltb_ge; lia).
    rewrite Er, Ht.
    replace (_ <? 2)%nat with false by (symmetry; apply Nat.ltb_ge; lia).
    cbn [app].
    exists (after_read c1),
           (String_ (List.concat (map delivered pre) ++ l)).
    assert (E : String_ (List.concat (map delivered pre) ++ delivered last)
                = String_ (List.concat (map delivered pre) ++ l) ++ CRLF).
    { rewrite Hl, app_assoc, String_app. reflexivity. }
    rewrite E. split; [reflexivity|]. split; [reflexivity|].
    cbn [after_read incoming]. now rewrite Hi1.
Qed.

Lemma read_returns_frame_witness :
  exists c' body,
    read scene.chatty = (Return (body ++ CRLF, None), c') /\
    "220 SNPP Gateway Ready" ++ CRLF = body ++ CRLF /\
    incoming c' = [sample.answer "214 more to come"].
Proof.
  apply (read_returns_frame scene.chatty
           [mkRead 0 (sample.bytes "220 SNPP ") None]
           (sample.answer "Gateway Ready")
           [sample.answer "214 more to come"]).
  - reflexivity.
  - repeat constructor.
  - reflexivity.
  - reflexivity.
  - vm_compute. discriminate.
Defined.

(** C10.  The terminator is looked for in the chunk just read only, so a
    CR LF that is split over two chunks does not end the read.  But the read
    does not always go on to the end of input or to an error: when, after
    chunks of at least two bytes without terminator at their end, a chunk
    of fewer than two bytes comes (the LF alone, after a chunk that ended
    with CR), the index expression of the terminator test panics; no chunk
    read ends with CR LF, and what the stream holds after the short chunk
    is never read. *)
Theorem read_split_terminator_panics :
  forall c pre short rest,
    incoming c = (pre ++ short :: rest)%list ->
    Forall plain pre ->
    r_err short = None ->
    (List.length (delivered short) < 2)%nat ->
    duration (pre ++ [short]) <= 30 * time.Second ->
    (forall r, In r (pre ++ [short]) -> terminated (delivered r) = false) /\
    exists c',
      read c
      = (Panic (index_out_of_range
                  (Z.of_nat (List.length (delivered short)) - 2) 256), c') /\
      incoming c' = rest.
Proof.
  intros c pre short rest Hi Hp Er Hl Hd. split.
  - intros r Hin. apply in_app_or in Hin as [Hin|[<-|[]]].
    + rewrite Forall_forall in Hp. now destruct (Hp r Hin) as (_ & _ & H).
    + unfold terminated.
      destruct (delivered short) as [|x [|y l]]; cbn in Hl |- *;
        [reflexivity | reflexivity | lia].
  - rewrite duration_app in Hd. cbn [duration fold_right] in Hd.
    pose proof (duration_nonneg pre) as Hn.
    rewrite read_unfold, Hi, length_app. cbn [List.length].
    replace (S (List.length pre + S (List.length rest)))
      with (List.length pre + S (S (List.length rest)))%nat by lia.
    edestruct (read_loop_plain pre (S (S (List.length rest))) [])
      as (c1 & Hrun & Hi1 & Hd1 & Hc1); [exact Hp | | | | rewrite Hrun].
    + reflexivity.
    + reflexivity.
    + cbn [clock]. lia.
    + cbn [clock] in Hc1. rewrite read_loop_turn. unfold read_turn, expires.
      rewrite Hi1, Hd1, Hc1. cbn [hd]. cbv zeta.
      replace (_ <? _) with false by (symmetry; apply Z.ltb_ge; lia).
      rewrite Er.
      replace (_ <? 2)%nat with true by (symmetry; apply Nat.ltb_lt; lia).
      exists (after_read c1). split; [reflexivity|].
      cbn [after_read incoming]. now rewrite Hi1.
Qed.

Lemma read_split_terminator_panics_witness :
  (forall r,
      In r [mkRead 0 (sample.bytes ("220 ok" ++ String CR EmptyString)) None;
            mkRead 0 (sample.bytes (String LF EmptyString)) None] ->
      terminated (delivered r) = false) /\
  exists c',
    read scene.lone_LF = (Panic (index_out_of_range (-1) 256), c') /\
    incoming c' = [mkRead 0 (sample.bytes "more") None].
Proof.
  apply (read_split_terminator_panics scene.lone_LF
           [mkRead 0 (sample.bytes ("220 ok" ++ String CR EmptyString)) None]
           (mkRead 0 (sample.bytes (String LF EmptyString)) None)
           [mkRead 0 (sample.bytes "more") None]).
  - reflexivity.
  - constructor; [|constructor].
    split; [reflexivity|]. split; [cbn; lia | reflexivity].
  - reflexivity.
  - cbn. lia.
  - vm_compute. discriminate.
Defined.

(** X2.  [read] never returns text together with an error: when it returns
    an error the text is empty, whatever was read before, and the error is
    the one of the connection and never [io.EOF]. *)
Theorem read_error_has_no_text :
  forall c s e c',
    read c = (Return (s, Some e), c') ->
    s = EmptyString /\
    exists ne data tr,
      e = NetErr ne /\ ne <> io_EOF /\
      trace c' = (tr ++ [EvRead data (Some ne)])%list.
Proof.
  intros c s e c' H.
  destruct (read_exit c) as (tr & ev & Ht & Hs & _).
  rewrite H in Ht, Hs. cbn [fst snd] in Ht, Hs.
  inversion Hs; subst. split; [reflexivity|]. eauto 6.
Qed.

Lemma read_error_has_no_text_witness :
  exists c',
    read scene.reset_mid_answer
    = (Return (EmptyString,
               Some (NetErr (OpError "connection reset by peer"))), c') /\
    EmptyString = EmptyString /\
    exists ne data tr,
      NetErr (OpError "connection reset by peer") = NetErr ne /\
      ne <> io_EOF /\
      trace c' = (tr ++ [EvRead data (Some ne)])%list.
Proof.
  eexists. split; [vm_compute; reflexivity|].
  eapply (read_error_has_no_text scene.reset_mid_answer).
  vm_compute. reflexivity.
Defined.

(* ================================================================= *)
(** ** What the result of [SendPage] tells *)

(** X3.  [SendPage] returns nil only when the dial succeeded and the gateway
    answered all five rounds with the expected prefix. *)
Theorem SendPage_nil_means_accepted :
  forall dial address port number message left,
    SendPage dial address port number message = (Return None, left) ->
    exists conn c5,
      dial "tcp" (host_port address port) (30 * time.Second) = inl conn /\
      accepted (handshake number message) conn c5 /\
      left = Some (closed c5).
Proof.
  intros dial address port number message left H.
  rewrite SendPage_run in H.
  destruct (dial _ _ _) as [conn|connErr]; [|discriminate].
  destruct (run (handshake number message) conn) as [r c5] eqn:Hr.
  injection H as -> <-.
  exists conn, c5. split; [reflexivity|].
  split; [apply run_nil; exact Hr | reflexivity].
Qed.

Lemma SendPage_nil_means_accepted_witness :
  exists conn c5,
    sample.to sample.friendly "tcp" (host_port "gateway" 444)
              (30 * time.Second) = inl conn /\
    accepted (handshake "5551212" "hello") conn c5 /\
    snd (SendPage (sample.to sample.friendly) "gateway" 444
                  "5551212" "hello") = Some (closed c5).
Proof.
  apply (SendPage_nil_means_accepted
           (sample.to sample.friendly) "gateway" 444%N "5551212" "hello").
  vm_compute. reflexivity.
Defined.

(** X4.  One of the five rejections is returned only when the dial
    succeeded, the rounds before the one the error belongs to were accepted,
    and the answer of that round came without error and lacks the expected
    prefix: the error tells the round. *)
Theorem SendPage_rejection_tells_round :
  forall dial address port number message e left,
    SendPage dial address port number message = (Return (Some e), left) ->
    In e protocol_errors ->
    exists conn pre r post ci msg c',
      dial "tcp" (host_port address port) (30 * time.Second) = inl conn /\
      handshake number message = (pre ++ r :: post)%list /\
      nth_error protocol_errors (List.length pre) = Some e /\
      accepted pre conn ci /\
      exchange r ci = (Return (msg, None), c') /\
      HasPrefix msg (expected r) = false /\
      left = Some (closed c').
Proof.
  intros dial address port number message e left H Hin.
  rewrite SendPage_run in H.
  destruct (dial _ _ _) as [conn|connErr].
  - destruct (run (handshake number message) conn) as [o c'] eqn:Hr.
    injection H as -> <-.
    destruct (run_error _ _ _ _ Hr)
      as (pre & r & post & ci & msg & Hsplit & Hacc & Hcase).
    destruct (handshake_split _ _ _ _ _ Hsplit) as (_ & Hs & Hf & _).
    destruct Hcase as [(He & Hp & ->)|He].
    + exists conn, pre, r, post, ci, msg, c'. auto 8.
    + destruct (exchange_error _ _ _ _ _ He) as (ne & ->).
      cbn in Hin. intuition discriminate.
  - injection H as <- _. cbn in Hin. intuition discriminate.
Qed.

Lemma SendPage_rejection_tells_round_witness :
  exists conn pre r post ci msg c',
    sample.to sample.refuses_pager "tcp" (host_port "gateway" 444)
              (30 * time.Second) = inl conn /\
    handshake "5551212" "hello" = (pre ++ r :: post)%list /\
    nth_error protocol_errors (List.length pre) = Some ErrRejectedPhone /\
    accepted pre conn ci /\
    exchange r ci = (Return (msg, None), c') /\
    HasPrefix msg (expected r) = false /\
    snd (SendPage (sample.to sample.refuses_pager) "gateway" 444
                  "5551212" "hello") = Some (closed c').
Proof.
  apply (SendPage_rejection_tells_round
           (sample.to sample.refuses_pager) "gateway" 444%N
           "5551212" "hello" ErrRejectedPhone).
  - vm_compute. reflexivity.
  - cbn. auto.
Defined.

(** [read] on a connection the peer has closed returns the empty text and
    no error. *)
Lemma read_at_end c :
  incoming c = [] -> fst (read c) = Return (EmptyString, None).
Proof.
  intros Hi. rewrite read_unfold, read_loop_turn. unfold read_turn, expires.
  cbn [incoming deadline clock]. rewrite Hi. cbn [hd closed_by_peer r_delay].
  replace (_ <? _) with false
    by (symmetry; apply Z.ltb_ge;
        unfold time.Second, time.Nanosecond; lia).
  reflexivity.
Qed.

(** X5.  When the gateway hangs up instead of answering a round (the rounds
    before were accepted, the command of the round was written, no byte is
    left to read), [SendPage] returns the rejection of that round and not
    an error of the connection. *)
Theorem SendPage_hangup_is_rejection :
  forall dial address port number message conn pre r post ci,
    dial "tcp" (host_port address port) (30 * time.Second) = inl conn ->
    handshake number message = (pre ++ r :: post)%list ->
    accepted pre conn ci ->
    incoming ci = [] ->
    (forall cmd, command r = Some cmd -> fst (write cmd ci) = Return None) ->
    fst (SendPage dial address port number message)
    = Return (Some (failure r)) /\
    In (failure r) protocol_errors.
Proof.
  intros dial address port number message conn pre r post ci
         Hdial Hsplit Hacc Hi Hw.
  destruct (handshake_split _ _ _ _ _ Hsplit) as (_ & Hs & Hf & He).
  split; [|eapply nth_error_In; exact Hf].
  assert (Hx : exists c', exchange r ci = (Return (EmptyString, None), c')).
  { unfold exchange. unfold speaks in Hs.
    destruct (command r) as [cmd|].
    - specialize (Hw _ eq_refl).
      destruct (write_report cmd ci)
        as (res & c1 & evs & HW & _ & _ & _ & _ & _ & _ & _ & Hi1 & _).
      unfold bind. rewrite HW in Hw |- *.
      cbn [fst] in Hw. injection Hw as Hres.
      destruct res; [discriminate|]. cbn [lift option_map].
      pose proof (read_at_end c1 (eq_trans Hi1 Hi)) as Hr.
      destruct (read c1) as [o c2]. cbn [fst] in Hr. subst o. eauto.
    - pose proof (read_at_end ci Hi) as Hr.
      destruct (read ci) as [o c2]. cbn [fst] in Hr. subst o. eauto. }
  destruct Hx as (c' & Hx).
  assert (Hp : HasPrefix EmptyString (expected r) = false).
  { apply nth_error_In in He. cbn in He.
    destruct He as [<-|[<-|[<-|[<-|[<-|[]]]]]]; reflexivity. }
  rewrite SendPage_run, Hdial, Hsplit, (run_accepted _ _ _ Hacc).
  cbn [run]. unfold bind. rewrite Hx, Hp. reflexivity.
Qed.

Lemma SendPage_hangup_is_rejection_witness :
  fst (SendPage (sample.to scene.hangs_up) "gateway" 444 "5551212" "hello")
  = Return (Some ErrRejectedPhone) /\
  In ErrRejectedPhone protocol_errors.
Proof.
  eapply (SendPage_hangup_is_rejection
            (sample.to scene.hangs_up) "gateway" 444%N "5551212" "hello"
            scene.hangs_up
            (firstn 1 (handshake "5551212" "hello"))
            (mkRound (Some ("PAGE 5551212 " ++ CRLF)) "250" ErrRejectedPhone)
            (skipn 2 (handshake "5551212" "hello"))).
  - reflexivity.
  - reflexivity.
  - eapply accepted_cons;
      [vm_compute; reflexivity | reflexivity | apply accepted_nil].
  - reflexivity.
  - intros cmd [= <-]. vm_compute. reflexivity.
Defined.

(* ================================================================= *)
(** ** Time and panics *)

Lemma exchange_clock r c :
  speaks r ->
  clock c <= clock (snd (exchange r c))
  <= clock c + 30 * time.Second * Z.of_nat (S (List.length (commands [r]))).
Proof.
  unfold exchange, commands. cbn [flat_map]. intros _.
  assert (0 < time.Second) by (vm_compute; reflexivity).
  destruct (command r) as [cmd|].
  - destruct (write_report cmd c)
      as (res & c1 & evs & HW & _ & _ & _ & _ & _ & _ & _ & _ & Hc).
    unfold bind. rewrite HW.
    destruct res as [e|]; cbn [lift option_map snd ret].
    + cbn [app List.length]. lia.
    + destruct (read_effect c1) as (reads & _ & _ & _ & _ & Hc1).
      cbv zeta in Hc1. cbn [app List.length]. lia.
  - destruct (read_effect c) as (reads & _ & _ & _ & _ & Hc).
    cbv zeta in Hc. cbn [app List.length]. lia.
Qed.

Lemma run_clock rs :
  Forall speaks rs ->
  forall c,
    clock c <= clock (snd (run rs c))
    <= clock c
       + 30 * time.Second
         * Z.of_nat (List.length rs + List.length (commands rs)).
Proof.
  assert (0 < time.Second) by (vm_compute; reflexivity).
  induction 1 as [|r rs Hr Hrs IH]; intros c.
  - cbn. lia.
  - pose proof (exchange_clock r c Hr) as Hx.
    assert (Hl : List.length (commands (r :: rs))
                 = (List.length (commands [r])
                    + List.length (commands rs))%nat).
    { unfold commands. cbn [flat_map]. now rewrite app_nil_r, length_app. }
    cbn [run]. unfold bind.
    destruct (exchange r c) as [[[msg [e|]]|e] c1]; cbn [snd] in Hx |- *.
    + cbn [ret snd]. rewrite Hl. cbn [List.length]. nia.
    + destruct (negb _).
      * cbn [ret snd]. rewrite Hl. cbn [List.length]. nia.
      * specialize (IH c1). rewrite Hl. cbn [List.length]. nia.
    + rewrite Hl. cbn [List.length]. nia.
Qed.

(** X6.  Once the dial has returned, [SendPage] is back within 270 seconds
    (five reads and four writes of at most 30 seconds each), whatever the
    gateway does; the clock of the connection never runs backwards. *)
Theorem SendPage_within_270_seconds :
  forall dial address port number message conn,
    dial "tcp" (host_port address port) (30 * time.Second) = inl conn ->
    exists r c',
      SendPage dial address port number message = (r, Some c') /\
      clock conn <= clock c' <= clock conn + 270 * time.Second.
Proof.
  intros dial address port number message conn Hdial.
  rewrite SendPage_run, Hdial.
  pose proof (run_clock _ (handshake_speaks number message) conn) as Hc.
  destruct (run (handshake number message) conn) as [r c1].
  cbn [snd] in Hc. exists r, (closed c1). split; [reflexivity|].
  cbn [closed conn.log clock].
  cbn [handshake commands flat_map command app List.length] in Hc.
  unfold time.Second, time.Nanosecond in *. lia.
Qed.

Lemma SendPage_within_270_seconds_witness :
  exists r c',
    SendPage (sample.to scene.slowest) "gateway" 444 "5551212" "hello"
    = (r, Some c') /\
    clock scene.slowest <= clock c'
    <= clock scene.slowest + 270 * time.Second.
Proof.
  apply (SendPage_within_270_seconds
           (sample.to scene.slowest) "gateway" 444%N "5551212" "hello"
           scene.slowest).
  reflexivity.
Defined.

(** The bound is reached: 30 seconds for each read and each write. *)
Example slowest_page :
  exists c',
    SendPage (sample.to scene.slowest) "gateway" 444 "5551212" "hello"
    = (Return None, Some c') /\
    clock c' = 270 * time.Second.
Proof. eexists. split; [vm_compute; reflexivity | reflexivity]. Qed.

(** A round panics only in the index expression of [read]. *)
Lemma exchange_panic r c e c' :
  speaks r ->
  exchange r c = (Panic e, c') ->
  exists tr data,
    trace c' = (tr ++ [EvRead data None])%list /\
    (List.length data < 2)%nat /\
    e = index_out_of_range (Z.of_nat (List.length data) - 2) 256.
Proof.
  assert (R : forall c0,
    read c0 = (Panic e, c') ->
    exists tr data,
      trace c' = (tr ++ [EvRead data None])%list /\
      (List.length data < 2)%nat /\
      e = index_out_of_range (Z.of_nat (List.length data) - 2) 256).
  { intros c0 H. destruct (read_exit c0) as (tr & ev & Ht & Hs & _).
    rewrite H in Ht, Hs. cbn [fst snd] in Ht, Hs.
    inversion Hs; subst. eauto. }
  unfold exchange.
  destruct (command r) as [cmd|]; intros _ H.
  - destruct (write_report cmd c) as (res & c1 & evs & HW & _).
    unfold bind in H. rewrite HW in H.
    destruct res; cbn [lift option_map] in H; [discriminate|].
    eapply R; eauto.
  - eapply R; eauto.
Qed.

Lemma run_panic rs :
  Forall speaks rs ->
  forall c e c',
    run rs c = (Panic e, c') ->
    exists tr data,
      trace c' = (tr ++ [EvRead data None])%list /\
      (List.length data < 2)%nat /\
      e = index_out_of_range (Z.of_nat (List.length data) - 2) 256.
Proof.
  induction 1 as [|r rs Hr Hrs IH]; intros c e c' H; [discriminate|].
  cbn [run] in H. unfold bind in H.
  destruct (exchange r c) as [[[msg [e'|]]|e'] c1] eqn:He.
  - discriminate.
  - destruct (negb _); [discriminate|]. eapply IH; eauto.
  - injection H as <- <-. eapply exchange_panic; eauto.
Qed.

(** X7.  [SendPage] panics in one way only: by the index expression of the
    terminator test, with index -1 or -2 into the 256 bytes of the buffer,
    right after a [Read] that delivered fewer than two bytes without error;
    the connection is closed all the same. *)
Theorem SendPage_panics_only_by_index :
  forall dial address port number message e left,
    SendPage dial address port number message = (Panic e, left) ->
    (e = index_out_of_range (-1) 256 \/ e = index_out_of_range (-2) 256) /\
    exists conn c' tr data,
      dial "tcp" (host_port address port) (30 * time.Second) = inl conn /\
      left = Some c' /\
      trace c' = (tr ++ [EvRead data None; EvClose])%list /\
      (List.length data < 2)%nat.
Proof.
  intros dial address port number message e left H.
  rewrite SendPage_run in H.
  destruct (dial _ _ _) as [conn|connErr]; [|discriminate].
  destruct (run (handshake number message) conn) as [o c1] eqn:Hr.
  injection H as -> <-.
  destruct (run_panic _ (handshake_speaks number message) _ _ _ Hr)
    as (tr & data & Ht & Hl & ->).
  split.
  - destruct data as [|x [|y data]]; cbn [List.length] in *;
      [right | left | lia]; reflexivity.
  - exists conn, (closed c1), tr, data. split; [reflexivity|].
    split; [reflexivity|]. split; [|exact Hl].
    cbn [closed conn.log trace]. rewrite Ht, <- app_assoc. reflexivity.
Qed.

Lemma SendPage_panics_only_by_index_witness :
  (index_out_of_range (-1) 256 = index_out_of_range (-1) 256 \/
   index_out_of_range (-1) 256 = index_out_of_range (-2) 256) /\
  exists conn c' tr data,
    sample.to sample.one_byte "tcp" (host_port "gateway" 444)
              (30 * time.Second) = inl conn /\
    snd (SendPage (sample.to sample.one_byte) "gateway" 444
                  "5551212" "hello") = Some c' /\
    trace c' = (tr ++ [EvRead data None; EvClose])%list /\
    (List.length data < 2)%nat.
Proof.
  apply (SendPage_panics_only_by_index
           (sample.to sample.one_byte) "gateway" 444%N "5551212" "hello").
  vm_compute. reflexivity.
Defined.
